(** * react-native-swipeable-item: the swipe-position state machine

    A shallow embedding of [src/index.tsx].  JavaScript numbers are IEEE-754
    binary64 values, so they are modelled by Rocq's primitive [float]; the
    React state cell, the two shared values, the gesture context and the
    promises handed out by the imperative handle are fields of one explicit
    [State] record that every handler threads through. *)

From Stdlib Require Import String.
From Stdlib Require Import Floats ZArith List Bool Lia PeanoNat.
Import ListNotations.

Local Open Scope float_scope.

(** ** JavaScript number primitives used by the component *)

Module JS.

Definition Infinity : float := infinity.

(** [Number.MAX_VALUE], the largest finite double. *)
Definition MAX_VALUE : float := 0x1.fffffffffffffp+1023.

(** [x === y] on numbers: IEEE equality ([NaN] differs from itself,
    the two zeros are equal). *)
Definition strictEq (x y : float) : bool := x =? y.

(** A number is falsy when it is [0], [-0] or [NaN]. *)
Definition truthy (x : float) : bool := negb (is_nan x || is_zero x).

(** [a || b] on numbers. *)
Definition or (a b : float) : float := if truthy a then a else b.

(** [a ?? b] where [a] may be [undefined]. *)
Definition nullish (a : option float) (b : float) : float :=
  match a with Some v => v | None => b end.

Definition isPosZero (x : float) : bool := PrimFloat.Leibniz.eqb x zero.
Definition isNegZero (x : float) : bool := PrimFloat.Leibniz.eqb x neg_zero.

(** [Math.max(...l)]: the scan of ECMA-262 21.3.2.24, started at
    [-Infinity]; a [NaN] argument makes the result [NaN], and [+0] ranks
    above [-0]. *)
Fixpoint maxFrom (highest : float) (l : list float) : float :=
  match l with
  | [] => highest
  | n :: rest =>
      if is_nan n then nan
      else if isPosZero n && isNegZero highest then maxFrom zero rest
      else if highest <? n then maxFrom n rest
      else maxFrom highest rest
  end.

Definition Math_max (l : list float) : float := maxFrom neg_infinity l.

(** [Math.min(...l)], the mirror image, started at [+Infinity]. *)
Fixpoint minFrom (lowest : float) (l : list float) : float :=
  match l with
  | [] => lowest
  | n :: rest =>
      if is_nan n then nan
      else if isNegZero n && isPosZero lowest then minFrom neg_zero rest
      else if n <? lowest then minFrom n rest
      else minFrom lowest rest
  end.

Definition Math_min (l : list float) : float := minFrom infinity l.

Definition Math_abs (x : float) : float := abs x.

End JS.

(** ** Configuration (the props the position logic reads) *)

Inductive OpenDirection : Set := LEFT | RIGHT | NONE.

Record Props : Set := mkProps {
  snapPointsLeft : list float;
  snapPointsRight : list float;
  activationThreshold : float;
  overSwipe : float;
  swipeDamping : float
}.

(** The defaults of the destructuring at the top of [SwipeableItem]. *)
Definition defaultProps : Props :=
  {| snapPointsLeft := [];
     snapPointsRight := [];
     activationThreshold := 20;
     overSwipe := 20;
     swipeDamping := 10 |}.

(** ** Snap catalog *)

Definition maxSnapPointLeft (p : Props) : float :=
  -1 * JS.or (JS.Math_max (snapPointsLeft p)) 0.

Definition maxSnapPointRight (p : Props) : float :=
  JS.or (JS.Math_max (snapPointsRight p)) 0.

Definition maxTranslateLeft (p : Props) : float :=
  maxSnapPointLeft p - overSwipe p.

Definition maxTranslateRight (p : Props) : float :=
  maxSnapPointRight p + overSwipe p.

(** [snapPointsLeft.map(p => p * -1).concat(snapPointsRight)] followed by
    [push(0)]. *)
Definition allSnapPoints (p : Props) : list float :=
  (map (fun q => q * -1) (snapPointsLeft p) ++ snapPointsRight p) ++ [0].

(** The [reduce] of [onEnd], seeded with [Infinity]. *)
Definition closerOf (velocityModifiedPosition acc cur : float) : float :=
  let diff := JS.Math_abs (velocityModifiedPosition - cur) in
  let prevDiff := JS.Math_abs (velocityModifiedPosition - acc) in
  if diff <? prevDiff then cur else acc.

Definition closestSnapPoint (velocityModifiedPosition : float)
    (snaps : list float) : float :=
  fold_left (closerOf velocityModifiedPosition) snaps JS.Infinity.

Definition velocityModifiedPosition (p : Props) (pos velocityX : float) : float :=
  pos + velocityX / swipeDamping p.

(** ** Derived signals *)

Definition swipingLeft (pos : float) : bool := pos <? 0.
Definition swipingRight (pos : float) : bool := 0 <? pos.

Definition percentOpenLeft (p : Props) (pos : float) : float :=
  if swipingLeft pos then JS.Math_abs (pos / maxSnapPointLeft p) else 0.

Definition percentOpenRight (p : Props) (pos : float) : float :=
  if swipingRight pos then JS.Math_abs (pos / maxSnapPointRight p) else 0.

(** ** Activation offsets handed to the pan recogniser *)

Definition hasLeft (p : Props) : bool := negb (Nat.eqb (length (snapPointsLeft p)) 0).
Definition hasRight (p : Props) : bool := negb (Nat.eqb (length (snapPointsRight p)) 0).

Definition isDirection (a b : OpenDirection) : bool :=
  match a, b with
  | LEFT, LEFT | RIGHT, RIGHT | NONE, NONE => true
  | _, _ => false
  end.

Definition activeOffsetL (p : Props) (openDirection : OpenDirection) : float :=
  if hasLeft p || isDirection openDirection RIGHT
  then - activationThreshold p
  else - JS.MAX_VALUE.

Definition activeOffsetR (p : Props) (openDirection : OpenDirection) : float :=
  if hasRight p || isDirection openDirection LEFT
  then activationThreshold p
  else JS.MAX_VALUE.

Definition activeOffsetX (p : Props) (openDirection : OpenDirection) : float * float :=
  (activeOffsetL p openDirection, activeOffsetR p openDirection).

(** ** Position state, animations and promises *)

(** The two completion callbacks the component hands to [withSpring]: the
    [resolvePromiseIfFinished] closure of an imperative call (it owns the
    [resolve] of one promise) and the [onComplete] closure of [onEnd] (it owns
    the resolved snap point). *)
Inductive Callback : Set :=
| ResolvePromiseIfFinished (promise : nat)
| OnComplete (closestSnapPoint : float).

Inductive PromiseStatus : Set := Pending | Fulfilled | Rejected.

(** A promise created by [new Promise((resolve) => ...)]: its status and the
    number of times its [resolve] has been called. *)
Record Promise : Set := mkPromise {
  status : PromiseStatus;
  resolveCalls : nat
}.

Record Animation : Set := mkAnimation {
  toValue : float;
  callback : Callback
}.

Record State : Set := mkState {
  openDirection : OpenDirection;          (* useState(OpenDirection.NONE) *)
  animStatePos : float;                   (* useSharedValue(0) *)
  isGestureActive : bool;                 (* useSharedValue(false) *)
  startX : float;                         (* ctx.startX *)
  running : option Animation;             (* the spring driving animStatePos *)
  promises : list Promise;                (* promises handed out so far *)
  changes : list (OpenDirection * float)  (* the onChange calls, oldest first *)
}.

(** State at mount.  [ctx.startX] is still [undefined]; adding a number to it
    gives [NaN], which is what the field holds here. *)
Definition initialState : State :=
  mkState NONE 0 false nan None [] [].

Definition setOpenDirection (d : OpenDirection) (st : State) : State :=
  mkState d (animStatePos st) (isGestureActive st) (startX st) (running st)
          (promises st) (changes st).

Definition setPos (v : float) (st : State) : State :=
  mkState (openDirection st) v (isGestureActive st) (startX st) (running st)
          (promises st) (changes st).

Definition setGestureActive (b : bool) (st : State) : State :=
  mkState (openDirection st) (animStatePos st) b (startX st) (running st)
          (promises st) (changes st).

Definition setStartX (v : float) (st : State) : State :=
  mkState (openDirection st) (animStatePos st) (isGestureActive st) v (running st)
          (promises st) (changes st).

Definition setRunning (a : option Animation) (st : State) : State :=
  mkState (openDirection st) (animStatePos st) (isGestureActive st) (startX st) a
          (promises st) (changes st).

Definition setPromises (ps : list Promise) (st : State) : State :=
  mkState (openDirection st) (animStatePos st) (isGestureActive st) (startX st)
          (running st) ps (changes st).

Definition logChange (c : OpenDirection * float) (st : State) : State :=
  mkState (openDirection st) (animStatePos st) (isGestureActive st) (startX st)
          (running st) (promises st) (changes st ++ [c]).

(** Calling [resolve] of a promise: a pending promise becomes fulfilled, a
    settled one is left as it is; the call is counted either way. *)
Definition resolved (pr : Promise) : Promise :=
  mkPromise (match status pr with Pending => Fulfilled | s => s end)
            (S (resolveCalls pr)).

Fixpoint resolveAt (i : nat) (ps : list Promise) : list Promise :=
  match ps, i with
  | [], _ => []
  | pr :: rest, O => resolved pr :: rest
  | pr :: rest, S j => pr :: resolveAt j rest
  end.

Definition resolvePromiseIfFinished (promise : nat) (isFinished : bool)
    (st : State) : State :=
  if isFinished then setPromises (resolveAt promise (promises st)) st else st.

Definition onAnimationEnd (d : OpenDirection) (snapPoint : float)
    (st : State) : State :=
  logChange (d, snapPoint) (setOpenDirection d st).

Definition directionOf (closestSnapPoint : float) : OpenDirection :=
  if JS.strictEq closestSnapPoint 0 then NONE
  else if 0 <? closestSnapPoint then RIGHT
  else LEFT.

(** [onComplete] takes no parameter: the [finished] flag the spring passes to
    it is dropped. *)
Definition onComplete (closestSnapPoint : float) (st : State) : State :=
  onAnimationEnd (directionOf closestSnapPoint) (JS.Math_abs closestSnapPoint) st.

Definition invoke (cb : Callback) (isFinished : bool) (st : State) : State :=
  match cb with
  | ResolvePromiseIfFinished i => resolvePromiseIfFinished i isFinished st
  | OnComplete c => onComplete c st
  end.

(** *** The spring primitive

    [withSpring] belongs to the animation library, not to this repository.  It
    is modelled by the contract the component relies on: writing to the shared
    value (a number or a new animation) interrupts the animation in flight,
    whose callback is then called with [false]; an animation left alone reaches
    its target and its callback is called with [true]. *)
Definition interrupt (st : State) : State :=
  match running st with
  | None => st
  | Some a => invoke (callback a) false (setRunning None st)
  end.

Definition assignAnimation (a : Animation) (st : State) : State :=
  setRunning (Some a) (interrupt st).

Definition assignValue (v : float) (st : State) : State :=
  setPos v (interrupt st).

Definition settle (st : State) : State :=
  match running st with
  | None => st
  | Some a => invoke (callback a) true (setPos (toValue a) (setRunning None st))
  end.

(** ** Imperative control *)

(** [new Promise(executor)]: the promise is created pending, then the executor
    starts the spring with a callback that owns its [resolve].  The result is
    the promise (its index) and the state after the call. *)
Definition animateTo (target : float) (st : State) : nat * State :=
  let promise := length (promises st) in
  (promise,
   assignAnimation (mkAnimation target (ResolvePromiseIfFinished promise))
     (setPromises (promises st ++ [mkPromise Pending 0]) st)).

Definition openLeft (p : Props) (snapPoint : option float) (st : State) : nat * State :=
  animateTo (JS.nullish snapPoint (maxSnapPointLeft p)) st.

Definition openRight (p : Props) (snapPoint : option float) (st : State) : nat * State :=
  animateTo (JS.nullish snapPoint (maxSnapPointRight p)) st.

Definition close (st : State) : nat * State :=
  animateTo 0 st.

(** The [open] of [useImperativeHandle]. *)
Definition open (p : Props) (d : OpenDirection) (snapPoint : option float)
    (st : State) : nat * State :=
  match d with
  | LEFT => openLeft p snapPoint st
  | RIGHT => openRight p snapPoint st
  | NONE => close st
  end.

(** ** Gesture handler *)

Definition onStart (st : State) : State :=
  setGestureActive true (setStartX (animStatePos st) st).

Definition clampedVal (p : Props) (rawVal : float) : float :=
  JS.Math_min [JS.Math_max [maxTranslateLeft p; rawVal]; maxTranslateRight p].

Definition onActive (p : Props) (translationX : float) (st : State) : State :=
  let rawVal := translationX + startX st in
  assignValue (clampedVal p rawVal) st.

Definition onEnd (p : Props) (velocityX : float) (st : State) : State :=
  let st1 := setGestureActive false st in
  let vmp := velocityModifiedPosition p (animStatePos st1) velocityX in
  let c := closestSnapPoint vmp (allSnapPoints p) in
  if JS.strictEq (animStatePos st1) c then onComplete c st1
  else assignAnimation (mkAnimation c (OnComplete c)) st1.

(** *** The pan recogniser

    Also an external collaborator.  [activeOffsetX = [l, r]] is the range the
    finger may travel without activating the handler; the first sample that
    leaves it activates the gesture ([onStart]), and that sample and the later
    ones are delivered to [onActive].  Lifting the finger of an active gesture
    delivers [onEnd]. *)
Definition leavesRange (range : float * float) (translationX : float) : bool :=
  (translationX <? fst range) || (snd range <? translationX).

Definition dragActive (p : Props) (samples : list float) (st : State) : State :=
  fold_left (fun s t => onActive p t s) samples st.

Fixpoint drag (p : Props) (samples : list float) (st : State) : bool * State :=
  match samples with
  | [] => (false, st)
  | t :: rest =>
      if leavesRange (activeOffsetX p (openDirection st)) t
      then (true, dragActive p (t :: rest) (onStart st))
      else drag p rest st
  end.

Definition swipe (p : Props) (samples : list float) (velocityX : float)
    (st : State) : State :=
  let (active, st1) := drag p samples st in
  if active then onEnd p velocityX st1 else st1.

(** ** Traces *)

Inductive Call : Set :=
| CallOpen (d : OpenDirection) (snapPoint : option float)
| CallClose.

Definition call (p : Props) (c : Call) (st : State) : nat * State :=
  match c with
  | CallOpen d snapPoint => open p d snapPoint st
  | CallClose => close st
  end.

Inductive Event : Set :=
| Imperative (c : Call)
| GestureStart
| GestureActive (translationX : float)
| GestureEnd (velocityX : float)
| Settle.

Definition step (p : Props) (st : State) (e : Event) : State :=
  match e with
  | Imperative c => snd (call p c st)
  | GestureStart => onStart st
  | GestureActive t => onActive p t st
  | GestureEnd v => onEnd p v st
  | Settle => settle st
  end.

Definition run (p : Props) (trace : list Event) (st : State) : State :=
  fold_left (step p) trace st.

Definition promiseAt (i : nat) (st : State) : Promise :=
  nth i (promises st) (mkPromise Pending 0).

(** Every promise handed out so far has had its [resolve] called exactly once. *)
Definition allResolvedOnce (st : State) : Prop :=
  forall pr, In pr (promises st) -> resolveCalls pr = 1%nat.

(** The animation in flight, if any, is the one promise [i] waits for. *)
Definition awaits (st : State) (i : nat) : bool :=
  match running st with
  | Some (mkAnimation _ (ResolvePromiseIfFinished j)) => Nat.eqb i j
  | _ => false
  end.

(** ** Vocabulary of the statements *)

(** The distance [onEnd] computes between the velocity-adjusted position and
    a snap point ([diff] and [prevDiff] in the source). *)
Definition distance (v s : float) : float := JS.Math_abs (v - s).

(** A promise is in one of the two conditions the component can put it in:
    untouched, or fulfilled by a single call of its [resolve]. *)
Definition wellResolved (pr : Promise) : Prop :=
  pr = mkPromise Pending 0 \/ pr = mkPromise Fulfilled 1.

(** Promises are well resolved and the promise the spring in flight would
    resolve is still untouched. *)
Definition consistent (st : State) : Prop :=
  (forall pr, In pr (promises st) -> wellResolved pr)
  /\ (forall i, awaits st i = true -> promiseAt i st = mkPromise Pending 0).

(** Promise [i] was handed out, is untouched, and no callback that could
    resolve it is left. *)
Definition orphaned (st : State) (i : nat) : Prop :=
  (i < length (promises st))%nat
  /\ promiseAt i st = mkPromise Pending 0
  /\ awaits st i = false.

(** The running example of the specification. *)
Definition demo : Props := mkProps [] [80; 160] 20 20 10.

(** ** Vocabulary of the order lemmas *)

(** [SFcompare] answers [Lt] or [Eq]. *)
Definition notGt (c : comparison) : bool :=
  match c with Gt => false | _ => true end.

(** The answer for [x] against [z] from those for [x] against [y] and [y]
    against [z], neither being [Gt]. *)
Definition meet (c1 c2 : comparison) : comparison :=
  match c1, c2 with Eq, Eq => Eq | _, _ => Lt end.

(** The IEEE comparison of two numbers, [None] when one is [NaN]. *)
Definition fcompare (x y : float) : option comparison :=
  SFcompare (Prim2SF x) (Prim2SF y).

(** The sign bit of an infinity or a finite non-zero number. *)
Definition signOf (f : spec_float) : bool :=
  match f with
  | S754_zero _ | S754_nan => false
  | S754_infinity s | S754_finite s _ _ => s
  end.

(** ** Presentation: underlay styles and touch routing *)

(** The [opacity] of [leftStyle] and [rightStyle]. *)
Definition leftStyle (p : Props) (pos : float) : float :=
  if 0 <? percentOpenLeft p pos then 1 else 0.

Definition rightStyle (p : Props) (pos : float) : float :=
  if 0 <? percentOpenRight p pos then 1 else 0.

Inductive PointerEvents : Set := PointerAuto | PointerNone.

(** The [pointerEvents] prop of the two underlay views. *)
Definition pointerEventsLeft (st : State) : PointerEvents :=
  if isDirection (openDirection st) LEFT then PointerAuto else PointerNone.

Definition pointerEventsRight (st : State) : PointerEvents :=
  if isDirection (openDirection st) RIGHT then PointerAuto else PointerNone.

(** ** Context values and hooks *)

(** A promise-returning control function, and a derived value read in a
    state of the row. *)
Definition OpenPromiseFn : Set := option float -> State -> nat * State.
Definition VoidPromiseFn : Set := State -> nat * State.
Definition DerivedValue (A : Set) : Set := State -> A.

Record UnderlayParams : Set := mkUnderlayParams {
  un_open : OpenPromiseFn;
  un_close : VoidPromiseFn;
  un_percentOpen : DerivedValue float;
  un_isGestureActive : DerivedValue bool;
  un_direction : OpenDirection
}.

Record OverlayParams : Set := mkOverlayParams {
  ov_openLeft : OpenPromiseFn;
  ov_openRight : OpenPromiseFn;
  ov_close : VoidPromiseFn;
  ov_openDirection : OpenDirection;
  ov_percentOpenLeft : DerivedValue float;
  ov_percentOpenRight : DerivedValue float;
  ov_open : OpenPromiseFn;
  ov_isGestureActive : DerivedValue bool
}.

Definition underlayRightParams (p : Props) : UnderlayParams :=
  {| un_open := openRight p;
     un_close := close;
     un_percentOpen := fun st => percentOpenRight p (animStatePos st);
     un_isGestureActive := isGestureActive;
     un_direction := RIGHT |}.

Definition underlayLeftParams (p : Props) : UnderlayParams :=
  {| un_open := openLeft p;
     un_close := close;
     un_percentOpen := fun st => percentOpenLeft p (animStatePos st);
     un_isGestureActive := isGestureActive;
     un_direction := LEFT |}.

(** [overlayParams], rendered while the React state holds [openDirection].
    Its [open] is the function of the only side that has snap points, and
    [openLeft] when both or neither have. *)
Definition overlayParams (p : Props) (openDirection : OpenDirection) : OverlayParams :=
  {| ov_openLeft := openLeft p;
     ov_openRight := openRight p;
     ov_close := close;
     ov_openDirection := openDirection;
     ov_percentOpenLeft := fun st => percentOpenLeft p (animStatePos st);
     ov_percentOpenRight := fun st => percentOpenRight p (animStatePos st);
     ov_open :=
       if hasLeft p && negb (hasRight p) then openLeft p
       else if hasRight p && negb (hasLeft p) then openRight p
       else openLeft p;
     ov_isGestureActive := isGestureActive |}.

(** A hook either returns or throws an [Error] with a message. *)
Inductive Result (A : Type) : Type :=
| Returned (value : A)
| Thrown (message : String.string).

Arguments Returned {A} value.
Arguments Thrown {A} message.

Definition useUnderlayParams (underlayContext : option UnderlayParams)
    : Result UnderlayParams :=
  match underlayContext with
  | None =>
      Thrown "useUnderlayParams must be called from within an UnderlayContext.Provider!"%string
  | Some c => Returned c
  end.

Definition useOverlayParams (overlayContext : option OverlayParams)
    : Result OverlayParams :=
  match overlayContext with
  | None =>
      Thrown "useOverlayParams must be called from within an OverlayContext.Provider!"%string
  | Some c => Returned c
  end.

(** What [useSwipeableItemParams] returns: the overlay context with [open]
    and [percentOpen] replaced. *)
Record SwipeableItemParams : Set := mkSwipeableItemParams {
  si_overlay : OverlayParams;
  si_open : option float -> option OpenDirection -> State -> nat * State;
  si_percentOpen : DerivedValue float
}.

(** Every member of the [OpenDirection] enum is a non-empty string, hence
    truthy: [direction || contextDirection] is [direction] whenever one is
    passed, and [if (contextDirection)] holds inside any underlay. *)
Definition useSwipeableItemParams (overlayContext : option OverlayParams)
    (underlayContext : option UnderlayParams) : Result SwipeableItemParams :=
  match overlayContext with
  | None =>
      Thrown "useOverlayParams must be called from within an OverlayContext.Provider!"%string
  | Some oc =>
      let contextDirection := option_map un_direction underlayContext in
      Returned
        {| si_overlay := oc;
           si_open := fun snapPoint direction =>
             let openDirection :=
               match direction with
               | Some d => Some d
               | None => contextDirection
               end in
             let openFn :=
               match openDirection with
               | Some LEFT => ov_openLeft oc
               | _ => ov_openRight oc
               end in
             openFn snapPoint;
           si_percentOpen :=
             match contextDirection with
             | Some d =>
                 if isDirection d LEFT then ov_percentOpenLeft oc
                 else ov_percentOpenRight oc
             | None =>
                 if isDirection (ov_openDirection oc) LEFT
                 then ov_percentOpenLeft oc
                 else ov_percentOpenRight oc
             end |}
  end.

(** Where a hook can be called relative to one row: inside the renderer of
    an underlay, inside the overlay (children and [renderOverlay]), or not
    inside the row at all.  The row's JSX puts [OverlayContext.Provider]
    around everything and an [UnderlayContext.Provider] around each underlay
    renderer. *)
Inductive Slot : Set := UnderlayLeftSlot | UnderlayRightSlot | OverlaySlot | OutsideRow.

Definition overlayContextAt (p : Props) (st : State) (s : Slot)
    : option OverlayParams :=
  match s with
  | OutsideRow => None
  | _ => Some (overlayParams p (openDirection st))
  end.

Definition underlayContextAt (p : Props) (s : Slot) : option UnderlayParams :=
  match s with
  | UnderlayLeftSlot => Some (underlayLeftParams p)
  | UnderlayRightSlot => Some (underlayRightParams p)
  | _ => None
  end.

(** ** Vocabulary of the further statements *)

(** Events that come from the imperative handle or the spring alone. *)
Definition programmatic (e : Event) : bool :=
  match e with
  | Imperative _ | Settle => true
  | _ => false
  end.

(** No release animation (one whose completion is [onComplete]) is in
    flight. *)
Definition noReleaseInFlight (st : State) : bool :=
  match running st with
  | Some (mkAnimation _ (OnComplete _)) => false
  | _ => true
  end.

(** The direction of the latest [onChange] call, [NONE] before the first. *)
Definition lastReported (log : list (OpenDirection * float)) : OpenDirection :=
  match rev log with
  | [] => NONE
  | (d, _) :: _ => d
  end.

(** An [onChange] payload: the snap distance is not negative, and is [0]
    exactly when the direction is [NONE]. *)
Definition wellFormedReport (r : OpenDirection * float) : Prop :=
  (snd r <? 0) = false /\ (fst r = NONE <-> (snd r =? 0) = true).

(** Every snap point of the list is positive, as the configuration asks. *)
Definition positiveSnaps (l : list float) : Prop :=
  forall s, In s l -> (0 <? s) = true.

(** The React state agrees with the [onChange] calls made so far, and every
    payload is well formed. *)
Definition inSync (st : State) : Prop :=
  openDirection st = lastReported (changes st)
  /\ forall r, In r (changes st) -> wellFormedReport r.

(** A positive infinity or a positive finite number. *)
Definition positiveOf (f : spec_float) : bool :=
  match f with
  | S754_infinity false | S754_finite false _ _ => true
  | _ => false
  end.

(** * Evaluation on the running example *)

Example maxSnapPointRight_demo : maxSnapPointRight demo = 160.
Proof. reflexivity. Qed.

Example release_at_120_flick :
  velocityModifiedPosition demo 120 500 = 170
  /\ closestSnapPoint 170 (allSnapPoints demo) = 160.
Proof. split; reflexivity. Qed.

Example release_at_60 :
  changes (settle (onEnd demo 0 (setPos 60 initialState))) = [(RIGHT, 80)]
  /\ openDirection (settle (onEnd demo 0 (setPos 60 initialState))) = RIGHT.
Proof. split; reflexivity. Qed.

Example MAX_VALUE_is_finite :
  is_finite JS.MAX_VALUE = true /\ next_up JS.MAX_VALUE = infinity.
Proof. split; reflexivity. Qed.

(** * Order facts about binary64 numbers

    The comparison primitives are specified through [SFcompare] on
    [spec_float]; the lemmas below lift its order properties to [float]. *)

Section SpecCompare.

Ltac by_compare_specs :=
  repeat match goal with
    | |- context [(?a ?= ?b)%Z] => destruct (Z.compare_spec a b)
    | |- context [(?a ?= ?b)%positive] => destruct (Pos.compare_spec a b)
    end;
  simpl; intros; subst; try discriminate; try reflexivity; try lia.

Lemma SFcompare_antisym (x y : spec_float) :
  SFcompare y x = option_map CompOpp (SFcompare x y).
Proof.
  destruct x as [sx|sx| |sx mx ex], y as [sy|sy| |sy my ey]; simpl;
    repeat match goal with s : bool |- _ => destruct s end; simpl;
    try reflexivity.
  all: change (PosDef.Pos.compare_cont Eq) with Pos.compare.
  all: rewrite (Z.compare_antisym ex ey), (Pos.compare_antisym mx my).
  all: destruct (ex ?= ey)%Z; simpl; try reflexivity.
  all: destruct (mx ?= my)%positive; reflexivity.
Qed.

Lemma SFcompare_trans (x y z : spec_float) (c1 c2 : comparison) :
  SFcompare x y = Some c1 -> SFcompare y z = Some c2 ->
  notGt c1 = true -> notGt c2 = true ->
  SFcompare x z = Some (meet c1 c2).
Proof.
  destruct x as [sx|sx| |sx mx ex], y as [sy|sy| |sy my ey],
           z as [sz|sz| |sz mz ez];
    simpl; intros H1 H2 N1 N2; try discriminate;
    repeat match goal with s : bool |- _ => destruct s end;
    simpl in *;
    try (injection H1 as <-; injection H2 as <-; simpl in *;
         (reflexivity || discriminate)).
  all: try (injection H1 as <-; injection H2 as <-).
  all: change (PosDef.Pos.compare_cont Eq) with Pos.compare in *.
  all: revert N1 N2.
  all: by_compare_specs.
Qed.

Lemma SFcompare_refl (x : spec_float) :
  x <> S754_nan -> SFcompare x x = Some Eq.
Proof.
  destruct x as [s|s| |s m e]; simpl; intros H; try congruence;
    destruct s; try reflexivity.
  all: change (PosDef.Pos.compare_cont Eq) with Pos.compare.
  all: rewrite Z.compare_refl, Pos.compare_refl; reflexivity.
Qed.

Lemma SFcompare_defined (x y : spec_float) :
  x <> S754_nan -> y <> S754_nan -> exists c, SFcompare x y = Some c.
Proof.
  destruct x, y; simpl; intros; try congruence; eauto.
Qed.

End SpecCompare.

Section FloatOrder.

Implicit Types x y z : float.

Lemma ltb_compare x y : (x <? y) = true <-> fcompare x y = Some Lt.
Proof.
  rewrite FloatAxioms.ltb_spec. unfold SFltb, fcompare.
  destruct (SFcompare _ _) as [[]|]; split; congruence.
Qed.

Lemma leb_compare x y :
  (x <=? y) = true <-> exists c, fcompare x y = Some c /\ notGt c = true.
Proof.
  rewrite FloatAxioms.leb_spec. unfold SFleb, fcompare.
  destruct (SFcompare _ _) as [[]|]; split; intros H;
    try discriminate; eauto;
    destruct H as (c & E & N); try discriminate;
    injection E as <-; discriminate.
Qed.

Lemma eqb_compare x y : (x =? y) = true <-> fcompare x y = Some Eq.
Proof.
  rewrite FloatAxioms.eqb_spec. unfold SFeqb, fcompare.
  destruct (SFcompare _ _) as [[]|]; split; congruence.
Qed.

Lemma is_nan_spec x : is_nan x = true <-> Prim2SF x = S754_nan.
Proof.
  unfold is_nan. rewrite FloatAxioms.eqb_spec. unfold SFeqb. split.
  - destruct (Prim2SF x) eqn:E; try reflexivity; intros H;
      rewrite SFcompare_refl in H by congruence; discriminate.
  - intros ->. reflexivity.
Qed.

Lemma not_nan_spec x : is_nan x = false <-> Prim2SF x <> S754_nan.
Proof.
  rewrite <- is_nan_spec. destruct (is_nan x); split; congruence.
Qed.

Lemma ltb_irrefl x : (x <? x) = false.
Proof.
  destruct (x <? x) eqn:E; [|reflexivity].
  apply ltb_compare in E. unfold fcompare in E.
  destruct (Prim2SF x) eqn:P; try discriminate;
    rewrite SFcompare_refl in E by congruence; discriminate.
Qed.

Lemma ltb_trans x y z :
  (x <? y) = true -> (y <? z) = true -> (x <? z) = true.
Proof.
  rewrite !ltb_compare. unfold fcompare. intros H1 H2.
  apply (SFcompare_trans _ _ _ _ _ H1 H2); reflexivity.
Qed.

Lemma leb_ltb_trans x y z :
  (x <=? y) = true -> (y <? z) = true -> (x <? z) = true.
Proof.
  rewrite leb_compare, !ltb_compare. unfold fcompare.
  intros (c & H1 & N) H2.
  rewrite (SFcompare_trans _ _ _ _ _ H1 H2 N eq_refl).
  destruct c; reflexivity.
Qed.

Lemma ltb_leb_trans x y z :
  (x <? y) = true -> (y <=? z) = true -> (x <? z) = true.
Proof.
  rewrite leb_compare, !ltb_compare. unfold fcompare.
  intros H1 (c & H2 & N).
  rewrite (SFcompare_trans _ _ _ _ _ H1 H2 eq_refl N). reflexivity.
Qed.

Lemma leb_trans x y z :
  (x <=? y) = true -> (y <=? z) = true -> (x <=? z) = true.
Proof.
  rewrite !leb_compare. unfold fcompare.
  intros (c1 & H1 & N1) (c2 & H2 & N2).
  exists (meet c1 c2). split.
  - apply (SFcompare_trans _ _ _ _ _ H1 H2 N1 N2).
  - destruct c1, c2; reflexivity.
Qed.

Lemma ltb_leb x y : (x <? y) = true -> (x <=? y) = true.
Proof.
  rewrite ltb_compare, leb_compare. intros H. exists Lt. auto.
Qed.

Lemma ltb_not_leb x y : (x <? y) = true -> (y <=? x) = false.
Proof.
  intros H. destruct (y <=? x) eqn:E; [|reflexivity].
  pose proof (leb_ltb_trans _ _ _ E H) as C.
  rewrite ltb_irrefl in C. discriminate.
Qed.

Lemma ltb_asym x y : (x <? y) = true -> (y <? x) = false.
Proof.
  intros H. destruct (y <? x) eqn:E; [|reflexivity].
  pose proof (ltb_trans _ _ _ H E) as C. rewrite ltb_irrefl in C. discriminate.
Qed.

Lemma ltb_not_eqb x y : (x <? y) = true -> (x =? y) = false.
Proof.
  rewrite ltb_compare. intros H.
  destruct (x =? y) eqn:E; [|reflexivity].
  apply eqb_compare in E. congruence.
Qed.

Lemma ltb_not_nan x y :
  (x <? y) = true -> is_nan x = false /\ is_nan y = false.
Proof.
  rewrite ltb_compare, !not_nan_spec. unfold fcompare.
  destruct (Prim2SF x), (Prim2SF y); simpl; intros; split; congruence.
Qed.

Lemma leb_not_nan x y :
  (x <=? y) = true -> is_nan x = false /\ is_nan y = false.
Proof.
  rewrite leb_compare, !not_nan_spec. unfold fcompare.
  intros (c & H & _). revert H.
  destruct (Prim2SF x), (Prim2SF y); simpl; intros; split; congruence.
Qed.

(** On numbers the order is total. *)
Lemma not_ltb_leb x y :
  is_nan x = false -> is_nan y = false ->
  (x <? y) = false -> (y <=? x) = true.
Proof.
  rewrite !not_nan_spec. intros Hx Hy H.
  destruct (SFcompare_defined _ _ Hx Hy) as (c & E).
  apply leb_compare. unfold fcompare.
  rewrite SFcompare_antisym, E. simpl.
  destruct c; eauto.
  apply ltb_compare in E. congruence.
Qed.

Lemma leb_refl x : is_nan x = false -> (x <=? x) = true.
Proof.
  intros H. apply not_ltb_leb; auto using ltb_irrefl.
Qed.

End FloatOrder.

(** * Finite numbers *)

Section Finite.

Implicit Types x y : float.

Lemma Prim2SF_infinity : Prim2SF infinity = S754_infinity false.
Proof. reflexivity. Qed.

Lemma Prim2SF_zero : Prim2SF 0 = S754_zero false.
Proof. reflexivity. Qed.

Lemma Prim2SF_MAX_VALUE :
  Prim2SF JS.MAX_VALUE = S754_finite false 9007199254740991 971.
Proof. reflexivity. Qed.

Lemma is_finite_spec x :
  is_finite x = true ->
  (exists s, Prim2SF x = S754_zero s)
  \/ (exists s m e, Prim2SF x = S754_finite s m e).
Proof.
  unfold is_finite. intros H.
  apply negb_true_iff, orb_false_iff in H. destruct H as (Hn & Hi).
  apply not_nan_spec in Hn.
  unfold is_infinity in Hi.
  rewrite FloatAxioms.eqb_spec, abs_spec, Prim2SF_infinity in Hi.
  destruct (Prim2SF x) as [s|s| |s m e]; eauto; try congruence.
  discriminate Hi.
Qed.

Lemma digits2_pos_bound (m : positive) :
  (Zpos m < 2 ^ Zpos (digits2_pos m))%Z.
Proof.
  induction m as [m IH|m IH|]; simpl digits2_pos.
  - rewrite Pos2Z.inj_succ, Z.pow_succ_r by lia. lia.
  - rewrite Pos2Z.inj_succ, Z.pow_succ_r by lia. lia.
  - reflexivity.
Qed.

(** The mantissa and exponent of a valid finite double are bounded by those
    of [Number.MAX_VALUE]. *)
Lemma valid_finite_bound (s : bool) (m : positive) (e : Z) :
  valid_binary (S754_finite s m e) = true ->
  (e <= 971)%Z /\ (e = 971%Z -> (Zpos m <= 9007199254740991)%Z).
Proof.
  unfold SpecFloat.valid_binary, bounded, canonical_mantissa, fexp.
  intros H. apply andb_true_iff in H. destruct H as (Hc & He).
  apply Z.leb_le in He. apply Z.eqb_eq in Hc.
  unfold emax, prec in *. split; [lia|].
  intros ->. pose proof (digits2_pos_bound m) as B.
  assert (D : (Zpos (digits2_pos m) <= 53)%Z).
  { unfold SpecFloat.emin in Hc. lia. }
  assert (P : (2 ^ Zpos (digits2_pos m) <= 2 ^ 53)%Z)
    by (apply Z.pow_le_mono_r; lia).
  change (2 ^ 53)%Z with 9007199254740992%Z in P. lia.
Qed.

Lemma SFltb_bounded (s : bool) (m top : positive) (e etop : Z) :
  (e <= etop)%Z -> (e = etop -> (Zpos m <= Zpos top)%Z) ->
  SFltb (S754_finite false top etop) (S754_finite s m e) = false
  /\ SFltb (S754_finite s m e) (S754_finite true top etop) = false.
Proof.
  intros He Hm. unfold SFltb, SFcompare.
  change (PosDef.Pos.compare_cont Eq) with Pos.compare.
  destruct s; split; try reflexivity.
  - destruct (Z.compare_spec e etop); try reflexivity; try lia.
    destruct (Pos.compare_spec m top); try reflexivity.
    specialize (Hm H). lia.
  - destruct (Z.compare_spec etop e); try reflexivity; try lia.
    destruct (Pos.compare_spec top m); try reflexivity.
    symmetry in H. specialize (Hm H). lia.
Qed.

Lemma finite_within_MAX_VALUE x :
  is_finite x = true ->
  (JS.MAX_VALUE <? x) = false /\ (x <? - JS.MAX_VALUE) = false.
Proof.
  intros F.
  rewrite !FloatAxioms.ltb_spec, opp_spec, Prim2SF_MAX_VALUE.
  pose proof (Prim2SF_valid x) as V.
  destruct (is_finite_spec x F) as [(s & E)|(s & m & e & E)]; rewrite E in *.
  - destruct s; split; reflexivity.
  - destruct (valid_finite_bound _ _ _ V) as (He & Hm).
    exact (SFltb_bounded s m _ e _ He Hm).
Qed.

(** From a finite position every snap point is strictly nearer than the
    [Infinity] that seeds the scan, provided its own distance is finite;
    this is the case of [0]. *)
Lemma distance_to_Infinity x :
  is_finite x = true -> Prim2SF (abs (x - infinity)) = S754_infinity false.
Proof.
  intros F. rewrite abs_spec, sub_spec, Prim2SF_infinity.
  destruct (is_finite_spec x F) as [(s & E)|(s & m & e & E)]; rewrite E;
    reflexivity.
Qed.

Lemma distance_to_zero x :
  is_finite x = true -> (abs (x - 0) <? abs (x - infinity)) = true.
Proof.
  intros F. rewrite FloatAxioms.ltb_spec, distance_to_Infinity by assumption.
  rewrite abs_spec, sub_spec, Prim2SF_zero.
  destruct (is_finite_spec x F) as [(s & E)|(s & m & e & E)]; rewrite E.
  - destruct s; reflexivity.
  - reflexivity.
Qed.

End Finite.

(** * Numbers that are not negative *)

Section NonNegative.

Implicit Types x y : float.

Lemma ltb_zero_sign x : (x <? 0) = signOf (Prim2SF x).
Proof.
  rewrite FloatAxioms.ltb_spec, Prim2SF_zero. unfold SFltb.
  destruct (Prim2SF x) as [s|s| |s m e]; simpl; try reflexivity;
    destruct s; reflexivity.
Qed.

Lemma zero_leb_sign x :
  (0 <=? x) = true -> signOf (Prim2SF x) = false /\ Prim2SF x <> S754_nan.
Proof.
  rewrite FloatAxioms.leb_spec, Prim2SF_zero. unfold SFleb.
  destruct (Prim2SF x) as [s|s| |s m e]; simpl; try discriminate;
    try (split; [reflexivity|congruence]);
    destruct s; try discriminate; split; (reflexivity || congruence).
Qed.

Lemma binary_round_aux_sign (s : bool) (m e : Z) (l : location) :
  signOf (binary_round_aux prec emax s m e l) = false \/ s = true.
Proof.
  destruct s; [right; reflexivity|left].
  unfold binary_round_aux.
  destruct (shr_fexp _ _ _ _ _) as (r1, e1).
  destruct (shr_fexp _ _ _ _ _) as (r2, e2).
  destruct (shr_m r2); try reflexivity.
  destruct (_ <=? _)%Z; reflexivity.
Qed.

Lemma add_nonneg x y :
  (0 <=? x) = true -> (0 <=? y) = true -> (x + y <? 0) = false.
Proof.
  intros Hx Hy. apply zero_leb_sign in Hx, Hy.
  destruct Hx as (Sx & Nx), Hy as (Sy & Ny).
  rewrite ltb_zero_sign, add_spec. unfold SF64add, SFadd.
  destruct (Prim2SF x) as [sx|sx| |sx mx ex], (Prim2SF y) as [sy|sy| |sy my ey];
    simpl in Sx, Sy; subst; try congruence; try reflexivity.
  - destruct sx, sy; reflexivity.
  - simpl cond_Zopp. simpl Z.add. unfold binary_normalize, binary_round.
    destruct (shl_align _ _ _) as (mz, ez).
    destruct (binary_round_aux_sign false (Zpos mz) ez loc_Exact); congruence.
Qed.

End NonNegative.

(** * Snap resolution *)

Section Nearest.

Variable v : float.

Lemma closerOf_distance (acc cur : float) :
  closerOf v acc cur = if distance v cur <? distance v acc then cur else acc.
Proof. reflexivity. Qed.

(** What a left-to-right scan with a strict comparison returns: either the
    seed, when nothing beat it, or an element that beat the seed, that every
    earlier element is strictly farther than, and that no later element
    beats. *)
Lemma scan_spec (l : list float) : forall acc,
  let r := fold_left (closerOf v) l acc in
  (r = acc /\ forall s, In s l -> (distance v s <? distance v acc) = false)
  \/ (exists l1 l2,
        l = l1 ++ r :: l2
        /\ (distance v r <? distance v acc) = true
        /\ (forall s, In s l1 -> (distance v s <=? distance v r) = false)
        /\ (forall s, In s l2 -> (distance v s <? distance v r) = false)).
Proof.
  induction l as [|x l IH]; intros acc; simpl.
  - left. split; [reflexivity|]. intros s [].
  - rewrite closerOf_distance.
    destruct (distance v x <? distance v acc) eqn:Hx.
    + right. destruct (IH x) as [(Er & Hl)|(l1 & l2 & El & Hr & H1 & H2)].
      * exists [], l. rewrite Er. simpl. repeat split; auto.
        intros s [].
      * exists (x :: l1), l2. simpl. repeat split; auto.
        -- f_equal. exact El.
        -- eapply ltb_trans; eassumption.
        -- intros s [<-|Hs]; auto using ltb_not_leb.
    + destruct (IH acc) as [(Er & Hl)|(l1 & l2 & El & Hr & H1 & H2)].
      * left. split; [exact Er|]. intros s [<-|Hs]; auto.
      * right. exists (x :: l1), l2. simpl. repeat split; auto.
        -- f_equal. exact El.
        -- intros s [<-|Hs]; auto.
           destruct (distance v x <=? distance v _) eqn:E; [|reflexivity].
           rewrite (leb_ltb_trans _ _ _ E Hr) in Hx. discriminate.
Qed.

End Nearest.

Lemma zero_in_allSnapPoints (p : Props) : In 0 (allSnapPoints p).
Proof. unfold allSnapPoints. apply in_or_app. right. left. reflexivity. Qed.



(** * The snap catalog on an empty side *)

(** C1. With [snapPointsLeft] (resp. [snapPointsRight]) empty the code does
    not fall back to [0]: [Math.max()] is [-Infinity], which is truthy, so the
    [|| 0] guard is never taken; the extremum of the empty side is infinite
    ([+Infinity] on the left, [-Infinity] on the right) and so is the travel
    bound built on it (shown with the default [overSwipe] of 20). *)
Theorem empty_side_extremum_is_infinite
    (snaps : list float) (threshold damping : float) :
  maxSnapPointLeft (mkProps [] snaps threshold 20 damping) = infinity
  /\ maxTranslateLeft (mkProps [] snaps threshold 20 damping) = infinity
  /\ maxSnapPointRight (mkProps snaps [] threshold 20 damping) = neg_infinity
  /\ maxTranslateRight (mkProps snaps [] threshold 20 damping) = neg_infinity
  /\ JS.or (JS.Math_max []) 0 = neg_infinity.
Proof. repeat split. Qed.

(** C5. A one-sided row ([snapPointsRight] left at its default): the first
    drag update writes [-Infinity] into the offset, which lies outside
    [maxTranslateLeft, maxTranslateRight] as the code computes it
    ([-100, -Infinity]) and outside the intended [-100, 20]. *)
Theorem drag_update_escapes_bounds :
  let p := mkProps [80] [] 20 20 10 in
  let st := onActive p (-30) (onStart initialState) in
  animStatePos st = neg_infinity
  /\ maxTranslateLeft p = -100
  /\ maxTranslateRight p = neg_infinity
  /\ (maxTranslateLeft p <=? animStatePos st) = false
  /\ (-100 <=? animStatePos st) && (animStatePos st <=? 20) = false.
Proof. repeat split. Qed.

(** * Record bookkeeping *)

Section Bookkeeping.

Lemma running_interrupt (st : State) : running (interrupt st) = None.
Proof.
  unfold interrupt. destruct (running st) as [[tv [i|c]]|] eqn:E; simpl; auto.
Qed.

Lemma startX_interrupt (st : State) : startX (interrupt st) = startX st.
Proof.
  unfold interrupt. destruct (running st) as [[tv [i|c]]|]; reflexivity.
Qed.

Lemma promises_interrupt (st : State) : promises (interrupt st) = promises st.
Proof.
  unfold interrupt. destruct (running st) as [[tv [i|c]]|]; reflexivity.
Qed.

Lemma interrupt_idle (st : State) : running st = None -> interrupt st = st.
Proof. unfold interrupt. intros ->. reflexivity. Qed.

Lemma settle_idle (st : State) : running st = None -> settle st = st.
Proof. unfold settle. intros ->. reflexivity. Qed.

Lemma setPos_setPos (v : float) (st : State) :
  setPos v (setPos v st) = setPos v st.
Proof. reflexivity. Qed.

End Bookkeeping.

(** * Drag updates *)

(** C9. A drag update depends only on the event's translation and the start
    offset captured by [onStart]: the offset becomes
    [clamp(translationX + startX)], and delivering the same update a second
    time changes nothing. *)
Theorem onActive_idempotent (p : Props) (translationX : float) (st : State) :
  animStatePos (onActive p translationX st)
    = JS.Math_min [JS.Math_max [maxTranslateLeft p; translationX + startX st];
                   maxTranslateRight p]
  /\ startX (onActive p translationX st) = startX st
  /\ onActive p translationX (onActive p translationX st)
     = onActive p translationX st.
Proof.
  unfold onActive, assignValue. simpl. split; [reflexivity|].
  split; [apply startX_interrupt|].
  rewrite startX_interrupt.
  rewrite (interrupt_idle (setPos _ _)) by (simpl; apply running_interrupt).
  reflexivity.
Qed.

(** * Derived signals *)

(** C8. [percentOpenLeft] is [|offset / maxSnapPointLeft|] while the offset is
    negative and [0] otherwise, [percentOpenRight] is
    [|offset / maxSnapPointRight|] while it is positive and [0] otherwise; both
    are functions of the offset and the configuration alone, and at least one
    of them is [0] at any offset. *)
Theorem percentOpen_signals (p : Props) (pos : float) :
  percentOpenLeft p pos
    = (if pos <? 0 then JS.Math_abs (pos / maxSnapPointLeft p) else 0)
  /\ percentOpenRight p pos
    = (if 0 <? pos then JS.Math_abs (pos / maxSnapPointRight p) else 0)
  /\ ((pos <? 0) = true -> percentOpenRight p pos = 0)
  /\ ((0 <? pos) = true -> percentOpenLeft p pos = 0)
  /\ (percentOpenLeft p pos = 0 \/ percentOpenRight p pos = 0).
Proof.
  unfold percentOpenLeft, percentOpenRight, swipingLeft, swipingRight.
  split; [reflexivity|]. split; [reflexivity|].
  split; [intros H; rewrite (ltb_asym _ _ H); reflexivity|].
  split; [intros H; rewrite (ltb_asym _ _ H); reflexivity|].
  destruct (pos <? 0) eqn:E; [right|left; reflexivity].
  rewrite (ltb_asym _ _ E). reflexivity.
Qed.

Lemma percentOpen_signals_witness :
  percentOpenRight demo (-40) = 0 /\ percentOpenLeft demo 40 = 0
  /\ percentOpenRight demo 40 = 0.25.
Proof.
  pose proof (percentOpen_signals demo (-40)) as (_ & _ & L & _).
  pose proof (percentOpen_signals demo 40) as (_ & _ & _ & R & _).
  split; [exact (L eq_refl)|]. split; [exact (R eq_refl)|reflexivity].
Defined.

(** * Imperative control *)

(** C10. [open] with direction [NONE] is [close]: the snap point argument is
    ignored, the promise returned is the one [close] creates, and the spring
    is aimed at [0]. *)
Theorem open_NONE_is_close (p : Props) (snapPoint : option float) (st : State) :
  open p NONE snapPoint st = close st
  /\ running (snd (open p NONE snapPoint st))
     = Some (mkAnimation 0 (ResolvePromiseIfFinished (fst (close st)))).
Proof. split; reflexivity. Qed.

(** * Gesture release *)

Lemma ltb_zero_not_eqb (c : float) : (0 <? c) = true -> (c =? 0) = false.
Proof.
  rewrite ltb_compare. intros H.
  destruct (c =? 0) eqn:E; [|reflexivity].
  apply eqb_compare in E. unfold fcompare in *.
  rewrite SFcompare_antisym, H in E. discriminate.
Qed.

Lemma changes_interrupt_setGestureActive (b : bool) (st : State) :
  changes (interrupt (setGestureActive b st)) = changes (interrupt st).
Proof.
  unfold interrupt. simpl. destruct (running st) as [[tv [i|c]]|]; reflexivity.
Qed.

(** C6. On release, with [c] the resolved target: when the offset already
    equals [c] no spring is started and the completion runs at once; otherwise
    a spring to [c] is started, nothing is reported by [onEnd] itself, and the
    completion runs when that spring settles.  Either way it records and
    reports [NONE] for [c = 0], [LEFT] for [c < 0], [RIGHT] for [c > 0],
    together with [|c|]. *)
Theorem onEnd_settle_completion (p : Props) (velocityX : float) (st : State) :
  let c := closestSnapPoint
             (velocityModifiedPosition p (animStatePos st) velocityX)
             (allSnapPoints p) in
  let report := (directionOf c, JS.Math_abs c) in
  let st' := onEnd p velocityX st in
  (JS.strictEq (animStatePos st) c = true ->
     running st' = running st
     /\ animStatePos st' = animStatePos st
     /\ openDirection st' = directionOf c
     /\ changes st' = changes st ++ [report])
  /\ (JS.strictEq (animStatePos st) c = false ->
     running st' = Some (mkAnimation c (OnComplete c))
     /\ changes st' = changes (interrupt st)
     /\ animStatePos (settle st') = c
     /\ openDirection (settle st') = directionOf c
     /\ changes (settle st') = changes st' ++ [report])
  /\ isGestureActive st' = false
  /\ ((c =? 0) = true -> directionOf c = NONE)
  /\ ((c <? 0) = true -> directionOf c = LEFT)
  /\ ((0 <? c) = true -> directionOf c = RIGHT).
Proof.
  intros c report st'. subst st'. unfold onEnd. simpl. fold c.
  split; [|split; [|split; [|split; [|split]]]].
  - intros ->. repeat split.
  - intros ->. unfold assignAnimation, settle. simpl.
    repeat split. apply changes_interrupt_setGestureActive.
  - destruct (JS.strictEq (animStatePos st) c); [reflexivity|].
    unfold assignAnimation, interrupt. simpl.
    destruct (running st) as [[tv [i|c']]|]; reflexivity.
  - unfold directionOf, JS.strictEq. intros ->. reflexivity.
  - unfold directionOf, JS.strictEq. intros H.
    rewrite (ltb_not_eqb _ _ H), (ltb_asym _ _ H). reflexivity.
  - unfold directionOf, JS.strictEq. intros H.
    rewrite (ltb_zero_not_eqb _ H), H. reflexivity.
Qed.

Lemma onEnd_settle_completion_witness :
  changes (settle (onEnd demo 0 (setPos 60 initialState))) = [(RIGHT, 80)]
  /\ changes (onEnd demo 0 (setPos 160 initialState)) = [(RIGHT, 160)].
Proof.
  pose proof (onEnd_settle_completion demo 0 (setPos 60 initialState))
    as (_ & Later & _).
  pose proof (onEnd_settle_completion demo 0 (setPos 160 initialState))
    as (Now & _).
  split.
  - exact (proj2 (proj2 (proj2 (proj2 (Later eq_refl))))).
  - exact (proj2 (proj2 (proj2 (Now eq_refl)))).
Defined.

(** * Promises of the imperative calls *)

Section ResolveAt.

Local Abbreviation untouched := (mkPromise Pending 0).

Lemma length_resolveAt (j : nat) (ps : list Promise) :
  length (resolveAt j ps) = length ps.
Proof.
  revert j. induction ps as [|pr ps IH]; intros [|j]; simpl; auto.
Qed.

Lemma nth_resolveAt_other (i j : nat) (ps : list Promise) (d : Promise) :
  i <> j -> nth i (resolveAt j ps) d = nth i ps d.
Proof.
  revert i j. induction ps as [|pr ps IH]; intros [|i] [|j] H; simpl; auto;
    congruence.
Qed.

Lemma nth_resolveAt_same (j : nat) (ps : list Promise) (d : Promise) :
  (j < length ps)%nat -> nth j (resolveAt j ps) d = resolved (nth j ps d).
Proof.
  revert j. induction ps as [|pr ps IH]; intros [|j] H; simpl in *;
    try lia; auto. apply IH. lia.
Qed.

Lemma In_resolveAt (j : nat) (ps : list Promise) (pr : Promise) :
  In pr (resolveAt j ps) ->
  In pr ps \/ ((j < length ps)%nat /\ pr = resolved (nth j ps untouched)).
Proof.
  revert j. induction ps as [|q ps IH]; intros [|j]; simpl; auto.
  - intros [<-|H]; auto. right. split; [lia|reflexivity].
  - intros [<-|H]; auto. destruct (IH _ H) as [H'|(L & E)]; auto.
    right. split; [lia|exact E].
Qed.

Lemma nth_app_new (ps : list Promise) (pr d : Promise) :
  nth (length ps) (ps ++ [pr]) d = pr.
Proof. rewrite app_nth2, Nat.sub_diag by lia. reflexivity. Qed.

End ResolveAt.

(** C2. [close()] on a row resting open to the right at offset 80: on the
    natural settle the promise is resolved once, the offset is [0] and
    [percentOpenRight] is [0], but the completion of the spring only resolves
    the promise: [onAnimationEnd] is not called, so [openDirection] is still
    [RIGHT] and [onChange] has not run. *)
Theorem close_settle_leaves_openDirection
    (p : Props) (ctx : float) (ps : list Promise)
    (log : list (OpenDirection * float)) :
  let st := mkState RIGHT 80 false ctx None ps log in
  let st' := settle (snd (close st)) in
  promiseAt (fst (close st)) st' = mkPromise Fulfilled 1
  /\ running st' = None
  /\ animStatePos st' = 0
  /\ percentOpenRight p (animStatePos st') = 0
  /\ openDirection st' = RIGHT
  /\ changes st' = log.
Proof.
  simpl. unfold promiseAt. simpl.
  rewrite nth_resolveAt_same by (rewrite length_app; simpl; lia).
  rewrite nth_app_new. repeat split.
Qed.

Section PromiseInvariants.

Variable p : Props.

Local Abbreviation untouched := (mkPromise Pending 0).

Lemma awaits_idle (st : State) (i : nat) :
  running st = None -> awaits st i = false.
Proof. unfold awaits. intros ->. reflexivity. Qed.

Lemma awaits_spec (st : State) (i : nat) :
  awaits st i = true <->
  exists tv, running st = Some (mkAnimation tv (ResolvePromiseIfFinished i)).
Proof.
  unfold awaits. destruct (running st) as [[tv [j|c]]|]; split;
    try discriminate; try (intros (tv' & E); discriminate).
  - intros E. apply Nat.eqb_eq in E. subst. eauto.
  - intros (tv' & E). injection E as _ <-. apply Nat.eqb_refl.
Qed.

(** States that differ in neither the promises nor the spring. *)
Lemma consistent_same (st st' : State) :
  promises st' = promises st -> running st' = running st ->
  consistent st -> consistent st'.
Proof.
  unfold consistent, promiseAt, awaits. intros -> ->. auto.
Qed.

Lemma consistent_no_wait (st st' : State) :
  promises st' = promises st -> (forall i, awaits st' i = false) ->
  consistent st -> consistent st'.
Proof.
  unfold consistent, promiseAt. intros -> W (H & _). split; auto.
  intros i A. rewrite W in A. discriminate.
Qed.

Lemma consistent_interrupt (st : State) :
  consistent st -> consistent (interrupt st).
Proof.
  apply consistent_no_wait; [apply promises_interrupt|].
  intros i. apply awaits_idle, running_interrupt.
Qed.

Lemma consistent_animateTo (target : float) (st : State) :
  consistent st -> consistent (snd (animateTo target st)).
Proof.
  intros (W & _). unfold animateTo, assignAnimation. simpl.
  split; simpl.
  - rewrite promises_interrupt. simpl. intros pr H.
    apply in_app_or in H. destruct H as [H|[<-|[]]]; auto.
    left. reflexivity.
  - intros i A. apply awaits_spec in A. destruct A as (tv & E).
    simpl in E. injection E as _ <-.
    unfold promiseAt. simpl. rewrite promises_interrupt. simpl.
    apply nth_app_new.
Qed.

Lemma consistent_settle (st : State) :
  consistent st -> consistent (settle st).
Proof.
  intros C. unfold settle.
  destruct (running st) as [[tv [j|c]]|] eqn:E; auto.
  - destruct C as (W & A). split; simpl.
    + intros pr H. apply In_resolveAt in H.
      destruct H as [H|(L & ->)]; auto.
      assert (Aj : awaits st j = true) by (apply awaits_spec; eauto).
      apply A in Aj. unfold promiseAt in Aj. rewrite Aj.
      right. reflexivity.
    + intros i Ai. discriminate.
  - apply (consistent_no_wait st); auto.
Qed.

Lemma consistent_onEnd (velocityX : float) (st : State) :
  consistent st -> consistent (onEnd p velocityX st).
Proof.
  intros C. unfold onEnd. destruct (JS.strictEq _ _).
  - apply (consistent_same st); auto.
  - apply (consistent_no_wait st); auto.
    unfold assignAnimation. simpl. rewrite promises_interrupt. reflexivity.
Qed.

Lemma consistent_step (e : Event) (st : State) :
  consistent st -> consistent (step p st e).
Proof.
  intros C. destruct e as [[d sp|]| |t|v|]; simpl.
  - destruct d; apply consistent_animateTo; exact C.
  - apply consistent_animateTo; exact C.
  - apply (consistent_same st); auto.
  - unfold onActive, assignValue.
    apply (consistent_same (interrupt st)); auto using consistent_interrupt.
  - apply consistent_onEnd; exact C.
  - apply consistent_settle; exact C.
Qed.

Lemma consistent_run (trace : list Event) (st : State) :
  consistent st -> consistent (run p trace st).
Proof.
  revert st. induction trace as [|e trace IH]; intros st C; simpl; auto.
  apply IH, consistent_step, C.
Qed.

Lemma consistent_initialState : consistent initialState.
Proof. split; [intros pr []|intros i A; discriminate]. Qed.

(** Orphaned promises stay orphaned. *)
Lemma orphaned_same (st st' : State) (i : nat) :
  promises st' = promises st -> awaits st' i = false ->
  orphaned st i -> orphaned st' i.
Proof.
  unfold orphaned, promiseAt. intros -> A (L & U & _). auto.
Qed.

Lemma orphaned_interrupt (st : State) (i : nat) :
  orphaned st i -> orphaned (interrupt st) i.
Proof.
  apply orphaned_same; [apply promises_interrupt|].
  apply awaits_idle, running_interrupt.
Qed.

Lemma orphaned_animateTo (target : float) (st : State) (i : nat) :
  orphaned st i -> orphaned (snd (animateTo target st)) i.
Proof.
  intros (L & U & _). unfold orphaned, promiseAt, animateTo, assignAnimation.
  simpl. rewrite promises_interrupt. simpl.
  rewrite length_app, app_nth1 by exact L. simpl.
  repeat split; [lia|exact U|].
  unfold awaits. simpl. apply Nat.eqb_neq. lia.
Qed.

Lemma orphaned_settle (st : State) (i : nat) :
  orphaned st i -> orphaned (settle st) i.
Proof.
  intros O. unfold settle.
  destruct (running st) as [[tv [j|c]]|] eqn:E; auto.
  - destruct O as (L & U & A). unfold awaits in A. rewrite E in A.
    apply Nat.eqb_neq in A.
    unfold orphaned, promiseAt. simpl.
    rewrite length_resolveAt, nth_resolveAt_other by exact A. auto.
  - apply (orphaned_same st); auto.
Qed.

Lemma orphaned_step (e : Event) (st : State) (i : nat) :
  orphaned st i -> orphaned (step p st e) i.
Proof.
  intros O. destruct e as [[d sp|]| |t|v|]; simpl.
  - destruct d; apply orphaned_animateTo; exact O.
  - apply orphaned_animateTo; exact O.
  - apply (orphaned_same st); auto. apply O.
  - unfold onActive, assignValue.
    apply (orphaned_same (interrupt st)); auto using orphaned_interrupt.
    apply awaits_idle. simpl. apply running_interrupt.
  - unfold onEnd. destruct (JS.strictEq _ _).
    + apply (orphaned_same st); auto. apply O.
    + apply (orphaned_same st); auto.
      unfold assignAnimation. simpl. rewrite promises_interrupt. reflexivity.
  - apply orphaned_settle; exact O.
Qed.

Lemma orphaned_run (trace : list Event) (st : State) (i : nat) :
  orphaned st i -> orphaned (run p trace st) i.
Proof.
  revert st. induction trace as [|e trace IH]; intros st O; simpl; auto.
  apply IH, orphaned_step, O.
Qed.

Lemma call_animateTo (c : Call) (st : State) :
  exists target, call p c st = animateTo target st.
Proof.
  destruct c as [[| |] sp|]; simpl; unfold openLeft, openRight, close; eauto.
Qed.

(** The promise of a call is untouched right after the call and fulfilled
    by one [resolve] when its own spring settles. *)
Lemma animateTo_then_settle (target : float) (st : State) :
  let i := fst (animateTo target st) in
  let st1 := snd (animateTo target st) in
  promiseAt i st1 = untouched
  /\ promiseAt i (settle st1) = mkPromise Fulfilled 1.
Proof.
  unfold animateTo, assignAnimation, settle, promiseAt. simpl.
  rewrite promises_interrupt. simpl.
  rewrite nth_resolveAt_same by (rewrite length_app; simpl; lia).
  rewrite nth_app_new. split; reflexivity.
Qed.

(** A second call right after the first orphans the first promise. *)
Lemma animateTo_twice (t1 t2 : float) (st : State) :
  orphaned (snd (animateTo t2 (snd (animateTo t1 st))))
           (fst (animateTo t1 st)).
Proof.
  unfold orphaned, promiseAt, animateTo, assignAnimation. simpl.
  rewrite !promises_interrupt. simpl.
  rewrite !length_app. simpl.
  rewrite app_nth1 by (rewrite length_app; simpl; lia).
  rewrite nth_app_new. repeat split; [lia|].
  unfold awaits. simpl. apply Nat.eqb_neq. lia.
Qed.

End PromiseInvariants.

(** C3, as the code has it.  Along every trace of calls, gesture events and
    settles, no promise is rejected and no [resolve] is called twice.  A call's
    promise is resolved, once, when its own spring settles naturally.  A call
    followed at once by another call is superseded: its promise stays pending
    whatever happens later, and the settle that follows resolves the promise
    of the later call only. *)
Theorem imperative_promises
    (p : Props) (trace : list Event) (c1 c2 : Call) (later : list Event) :
  let st := run p trace initialState in
  let i := fst (call p c1 st) in
  let st1 := snd (call p c1 st) in
  let j := fst (call p c2 st1) in
  let st2 := snd (call p c2 st1) in
  (forall pr, In pr (promises st) ->
     status pr <> Rejected /\ (resolveCalls pr <= 1)%nat
     /\ (status pr = Fulfilled <-> resolveCalls pr = 1%nat))
  /\ promiseAt i st1 = mkPromise Pending 0
  /\ promiseAt i (settle st1) = mkPromise Fulfilled 1
  /\ promiseAt j (settle st2) = mkPromise Fulfilled 1
  /\ promiseAt i (settle st2) = mkPromise Pending 0
  /\ promiseAt i (run p later st2) = mkPromise Pending 0.
Proof.
  intros st i st1 j st2.
  split; [|split; [|split; [|split; [|split]]]].
  - intros pr H.
    destruct (consistent_run p trace _ consistent_initialState) as (W & _).
    destruct (W pr H) as [->| ->]; simpl; repeat split;
      try congruence; try lia; try discriminate.
  - subst i st1. destruct (call_animateTo p c1 st) as (t & ->).
    apply animateTo_then_settle.
  - subst i st1. destruct (call_animateTo p c1 st) as (t & ->).
    apply animateTo_then_settle.
  - subst j st2. destruct (call_animateTo p c2 st1) as (t & ->).
    apply animateTo_then_settle.
  - subst j st2 i st1.
    destruct (call_animateTo p c1 st) as (t1 & ->).
    destruct (call_animateTo p c2 (snd (animateTo t1 st))) as (t2 & ->).
    apply (orphaned_settle _ _ (animateTo_twice t1 t2 st)).
  - subst j st2 i st1.
    destruct (call_animateTo p c1 st) as (t1 & ->).
    destruct (call_animateTo p c2 (snd (animateTo t1 st))) as (t2 & ->).
    apply (orphaned_run p later _ _ (animateTo_twice t1 t2 st)).
Qed.

(** C3, as stated, fails: after [open(RIGHT, 80)] called twice in succession
    and the natural settle that follows, the row is at rest and the first
    promise has not been resolved. *)
Lemma double_open_first_promise_pending :
  let st := run demo [Imperative (CallOpen RIGHT (Some 80));
                      Imperative (CallOpen RIGHT (Some 80));
                      Settle] initialState in
  running st = None
  /\ animStatePos st = 80
  /\ promises st = [mkPromise Pending 0; mkPromise Fulfilled 1]
  /\ ~ allResolvedOnce st.
Proof.
  simpl. repeat split.
  intros H. specialize (H (mkPromise Pending 0) (or_introl eq_refl)).
  discriminate.
Qed.

(** * Activation gating *)

Section Gating.

Implicit Types x y : float.

Lemma leb_zero_not_negative x : (0 <=? x) = true -> (x <? 0) = false.
Proof.
  intros H. rewrite ltb_zero_sign. apply (zero_leb_sign x H).
Qed.

Lemma maxFrom_not_negative (l : list float) : forall h,
  (h <? 0) = false -> (JS.maxFrom h l <? 0) = false.
Proof.
  induction l as [|n l IH]; intros h H; simpl; auto.
  destruct (is_nan n); [reflexivity|].
  destruct (JS.isPosZero n && JS.isNegZero h); [apply IH; reflexivity|].
  destruct (h <? n) eqn:E; [|apply IH; exact H].
  apply IH. destruct (n <? 0) eqn:N; [|reflexivity].
  rewrite (ltb_trans _ _ _ E N) in H. discriminate.
Qed.

Lemma Math_max_head_not_negative x (l : list float) :
  (x <? 0) = false -> (JS.Math_max (x :: l) <? 0) = false.
Proof.
  intros H. unfold JS.Math_max. simpl.
  destruct (is_nan x) eqn:Nx; [reflexivity|].
  change (JS.isNegZero neg_infinity) with false. rewrite andb_false_r.
  destruct (neg_infinity <? x) eqn:E.
  - apply maxFrom_not_negative, H.
  - apply not_ltb_leb in E; [|reflexivity|exact Nx].
    assert (C : (x <? 0) = true)
      by (apply (leb_ltb_trans _ _ _ E); reflexivity).
    congruence.
Qed.

Lemma minFrom_not_negative (l : list float) : forall lo,
  (lo <? 0) = false -> (forall n, In n l -> (n <? 0) = false) ->
  (JS.minFrom lo l <? 0) = false.
Proof.
  induction l as [|n l IH]; intros lo H Hl; simpl; auto.
  destruct (is_nan n); [reflexivity|].
  assert (Hl' : forall m, In m l -> (m <? 0) = false)
    by (intros m Hm; apply Hl; right; exact Hm).
  destruct (JS.isNegZero n && JS.isPosZero lo); [apply IH; auto|].
  destruct (n <? lo); apply IH; auto. apply Hl. left. reflexivity.
Qed.

Lemma infinity_sub_not_negative y : (infinity - y <? 0) = false.
Proof.
  rewrite ltb_zero_sign, sub_spec, Prim2SF_infinity.
  destruct (Prim2SF y) as [s|s| |s m e]; try reflexivity.
  destruct s; reflexivity.
Qed.

Lemma maxFrom_nonneg (l : list float) : forall h,
  (0 <=? h) = true -> (forall s, In s l -> (0 <=? s) = true) ->
  (0 <=? JS.maxFrom h l) = true.
Proof.
  induction l as [|n l IH]; intros h H Hl; simpl; auto.
  assert (Hn : (0 <=? n) = true) by (apply Hl; left; reflexivity).
  assert (Hl' : forall m, In m l -> (0 <=? m) = true)
    by (intros m Hm; apply Hl; right; exact Hm).
  destruct (leb_not_nan _ _ Hn) as (_ & ->).
  destruct (JS.isPosZero n && JS.isNegZero h); [apply IH; auto|].
  destruct (h <? n); apply IH; auto.
Qed.

Lemma Math_max_nonneg (l : list float) :
  l <> [] -> (forall s, In s l -> (0 <=? s) = true) ->
  (0 <=? JS.Math_max l) = true.
Proof.
  destruct l as [|n l]; [congruence|]. intros _ Hl.
  assert (Hn : (0 <=? n) = true) by (apply Hl; left; reflexivity).
  assert (Hl' : forall m, In m l -> (0 <=? m) = true)
    by (intros m Hm; apply Hl; right; exact Hm).
  unfold JS.Math_max. simpl.
  destruct (leb_not_nan _ _ Hn) as (_ & ->).
  change (JS.isNegZero neg_infinity) with false. rewrite andb_false_r.
  assert (E : (neg_infinity <? n) = true)
    by (apply (ltb_leb_trans _ 0); [reflexivity|exact Hn]).
  rewrite E. apply maxFrom_nonneg; auto.
Qed.

Lemma or_zero_nonneg x : (0 <=? x) = true -> (0 <=? JS.or x 0) = true.
Proof. unfold JS.or. destruct (JS.truthy x); auto. Qed.

Variable p : Props.

Lemma hasLeft_spec : hasLeft p = true <-> snapPointsLeft p <> [].
Proof.
  unfold hasLeft. destruct (snapPointsLeft p); simpl; split; congruence.
Qed.

Lemma hasRight_spec : hasRight p = true <-> snapPointsRight p <> [].
Proof.
  unfold hasRight. destruct (snapPointsRight p); simpl; split; congruence.
Qed.

Hypothesis noLeft : snapPointsLeft p = [].
Hypothesis rightPositive :
  forall s, In s (snapPointsRight p) -> (0 <=? s) = true.
Hypothesis overSwipePositive : (0 <=? overSwipe p) = true.

Lemma maxTranslateRight_not_negative :
  snapPointsRight p <> [] -> (maxTranslateRight p <? 0) = false.
Proof.
  intros H. unfold maxTranslateRight, maxSnapPointRight.
  apply add_nonneg; [|exact overSwipePositive].
  apply or_zero_nonneg, Math_max_nonneg; auto.
Qed.

Lemma clampedVal_not_negative (rawVal : float) :
  snapPointsRight p <> [] -> (clampedVal p rawVal <? 0) = false.
Proof.
  intros H. unfold clampedVal, JS.Math_min.
  apply minFrom_not_negative; [reflexivity|].
  intros n [<-|[<-|[]]].
  - apply Math_max_head_not_negative.
    unfold maxTranslateLeft, maxSnapPointLeft. rewrite noLeft.
    apply infinity_sub_not_negative.
  - apply maxTranslateRight_not_negative, H.
Qed.

Lemma dragActive_snoc (samples : list float) (t : float) (st : State) :
  dragActive p (samples ++ [t]) st = onActive p t (dragActive p samples st).
Proof. unfold dragActive. rewrite fold_left_app. reflexivity. Qed.

Lemma dragActive_last (samples : list float) (st : State) :
  samples <> [] ->
  running (dragActive p samples st) = None
  /\ exists rawVal,
       animStatePos (dragActive p samples st) = clampedVal p rawVal.
Proof.
  destruct samples as [|t samples _] using rev_ind; [congruence|].
  intros _. rewrite dragActive_snoc. unfold onActive, assignValue. simpl.
  split; [apply running_interrupt|eauto].
Qed.

(** Neither threshold can be crossed by a finite translation when neither
    side has snap points and the row is closed. *)
Lemma no_snap_points_no_activation (t : float) :
  snapPointsRight p = [] -> is_finite t = true ->
  leavesRange (activeOffsetX p NONE) t = false.
Proof.
  intros R F. unfold leavesRange, activeOffsetX, activeOffsetL, activeOffsetR,
    hasLeft, hasRight. rewrite noLeft, R.
  cbn [length Nat.eqb negb orb isDirection fst snd].
  destruct (finite_within_MAX_VALUE t F) as (-> & ->). reflexivity.
Qed.

Lemma drag_inactive (samples : list float) (st : State) :
  fst (drag p samples st) = false -> snd (drag p samples st) = st.
Proof.
  induction samples as [|t samples IH]; simpl; auto.
  destruct (leavesRange _ t); simpl; [discriminate|exact IH].
Qed.

Lemma drag_active (samples : list float) (st : State) :
  openDirection st = NONE ->
  (forall t, In t samples -> is_finite t = true) ->
  fst (drag p samples st) = true ->
  snapPointsRight p <> []
  /\ exists active,
       active <> []
       /\ snd (drag p samples st) = dragActive p active (onStart st).
Proof.
  intros D. induction samples as [|t samples IH]; simpl; [discriminate|].
  intros F. destruct (leavesRange _ t) eqn:E; simpl.
  - intros _. split.
    + intros R. rewrite D, no_snap_points_no_activation in E; auto.
      discriminate.
    + exists (t :: samples). split; [discriminate|reflexivity].
  - apply IH. intros t' H. apply F. right. exact H.
Qed.

Lemma closestSnapPoint_not_negative (v : float) :
  (closestSnapPoint v (allSnapPoints p) <? 0) = false.
Proof.
  pose proof (scan_spec v (allSnapPoints p) JS.Infinity) as S.
  fold (closestSnapPoint v (allSnapPoints p)) in S. simpl in S.
  remember (closestSnapPoint v (allSnapPoints p)) as c eqn:Ec. clear Ec.
  destruct S as [(-> & _)|(l1 & l2 & E & _)]; [reflexivity|].
  assert (I : In c (allSnapPoints p)) by (rewrite E; apply in_elt).
  unfold allSnapPoints in I. rewrite noLeft in I. simpl in I.
  apply in_app_or in I. destruct I as [I|[<-|[]]]; [|reflexivity].
  apply leb_zero_not_negative, rightPositive, I.
Qed.

Lemma closed_drag_not_negative
    (st : State) (samples : list float) (velocityX : float) :
  animStatePos st = 0 -> openDirection st = NONE -> running st = None ->
  (forall t, In t samples -> is_finite t = true) ->
  (animStatePos (snd (drag p samples st)) <? 0) = false
  /\ (animStatePos (swipe p samples velocityX st) <? 0) = false
  /\ (animStatePos (settle (swipe p samples velocityX st)) <? 0) = false.
Proof.
  intros P D R F. unfold swipe.
  destruct (drag p samples st) as (active, st1) eqn:E.
  assert (E1 : fst (drag p samples st) = active) by (rewrite E; reflexivity).
  assert (E2 : snd (drag p samples st) = st1) by (rewrite E; reflexivity).
  simpl. destruct active.
  - destruct (drag_active samples st D F E1) as (HR & l & Hl & Es).
    rewrite E2 in Es.
    destruct (dragActive_last l (onStart st) Hl) as (Run & raw & Pos).
    rewrite <- Es in Run, Pos.
    assert (N : (animStatePos st1 <? 0) = false)
      by (rewrite Pos; apply clampedVal_not_negative, HR).
    split; [exact N|]. unfold onEnd. simpl.
    destruct (JS.strictEq _ _).
    + rewrite settle_idle by exact Run. simpl. auto.
    + unfold assignAnimation, settle. simpl.
      rewrite interrupt_idle by exact Run. simpl. split; [exact N|].
      apply closestSnapPoint_not_negative.
  - rewrite (drag_inactive samples st E1) in E2. subst st1.
    rewrite settle_idle by exact R. rewrite P. repeat split.
Qed.

End Gating.



(** * Further properties of the code *)

Section TwoArguments.

Implicit Types a b : float.

Lemma neg_infinity_leb a : is_nan a = false -> (neg_infinity <=? a) = true.
Proof.
intros H. apply not_nan_spec in H. rewrite FloatAxioms.leb_spec.
change (Prim2SF neg_infinity) with (S754_infinity true). unfold SFleb.
destruct (Prim2SF a) as [s|s| |s m e]; try congruence; try reflexivity.
destruct s; reflexivity.
Qed.

Lemma leb_infinity a : is_nan a = false -> (a <=? infinity) = true.
Proof.
intros H. apply not_nan_spec in H. rewrite FloatAxioms.leb_spec.
rewrite Prim2SF_infinity. unfold SFleb.
destruct (Prim2SF a) as [s|s| |s m e]; try congruence; try reflexivity.
destruct s; reflexivity.
Qed.

Lemma isPosZero_eq a : JS.isPosZero a = true -> a = 0.
Proof. apply FloatAxioms.Leibniz.eqb_spec. Qed.

Lemma isNegZero_eq a : JS.isNegZero a = true -> a = neg_zero.
Proof. apply FloatAxioms.Leibniz.eqb_spec. Qed.

(** [Math.max(a, b)] on two numbers is an upper bound of both and is no
  larger than one of them. *)
Lemma Math_max_two a b :
is_nan a = false -> is_nan b = false ->
(a <=? JS.Math_max [a; b]) = true
/\ (b <=? JS.Math_max [a; b]) = true
/\ ((JS.Math_max [a; b] <=? a) = true \/ (JS.Math_max [a; b] <=? b) = true).
Proof.
intros Na Nb. unfold JS.Math_max. simpl. rewrite Na, Nb.
change (JS.isNegZero neg_infinity) with false. rewrite !andb_false_r.
destruct (neg_infinity <? a) eqn:Ea.
- destruct (JS.isPosZero b && JS.isNegZero a) eqn:Z.
  + apply andb_true_iff in Z. destruct Z as (Zb & Za).
    apply isPosZero_eq in Zb. apply isNegZero_eq in Za. subst.
    repeat split; auto.
  + destruct (a <? b) eqn:E.
    * repeat split; auto using ltb_leb, leb_refl.
    * repeat split; auto using not_ltb_leb, leb_refl.
- apply not_ltb_leb in Ea; auto.
  destruct (neg_infinity <? b) eqn:Eb.
  + repeat split; auto using leb_refl.
    apply ltb_leb, (leb_ltb_trans _ _ _ Ea Eb).
  + apply not_ltb_leb in Eb; auto.
    repeat split; auto using neg_infinity_leb.
Qed.

(** [Math.min(a, b)] on two numbers is a lower bound of both and is no
  smaller than one of them. *)
Lemma Math_min_two a b :
is_nan a = false -> is_nan b = false ->
(JS.Math_min [a; b] <=? a) = true
/\ (JS.Math_min [a; b] <=? b) = true
/\ ((a <=? JS.Math_min [a; b]) = true \/ (b <=? JS.Math_min [a; b]) = true).
Proof.
intros Na Nb. unfold JS.Math_min. simpl. rewrite Na, Nb.
change (JS.isPosZero infinity) with false. rewrite !andb_false_r.
destruct (a <? infinity) eqn:Ea.
- destruct (JS.isNegZero b && JS.isPosZero a) eqn:Z.
  + apply andb_true_iff in Z. destruct Z as (Zb & Za).
    apply isNegZero_eq in Zb. apply isPosZero_eq in Za. subst.
    repeat split; auto.
  + destruct (b <? a) eqn:E.
    * repeat split; auto using ltb_leb, leb_refl.
    * repeat split; auto using not_ltb_leb, leb_refl.
- apply not_ltb_leb in Ea; auto.
  destruct (b <? infinity) eqn:Eb.
  + repeat split; auto using leb_refl.
    apply ltb_leb, (ltb_leb_trans _ _ _ Eb Ea).
  + apply not_ltb_leb in Eb; auto.
    repeat split; auto using leb_infinity.
Qed.

Lemma Math_max_two_not_nan a b :
is_nan a = false -> is_nan b = false -> is_nan (JS.Math_max [a; b]) = false.
Proof.
intros Na Nb. destruct (Math_max_two a b Na Nb) as (H & _).
apply (leb_not_nan _ _ H).
Qed.

End TwoArguments.

(** X1. When the travel bounds are in order and the raw value is a number,
    the offset a drag update writes lies within
    [maxTranslateLeft, maxTranslateRight], both ends included. *)
Theorem clampedVal_within_bounds (p : Props) (translationX : float) (st : State) :
  (maxTranslateLeft p <=? maxTranslateRight p) = true ->
  is_nan (translationX + startX st) = false ->
  (maxTranslateLeft p <=? animStatePos (onActive p translationX st)) = true
  /\ (animStatePos (onActive p translationX st) <=? maxTranslateRight p) = true.
Proof.
  intros B N. unfold onActive, assignValue. simpl. unfold clampedVal.
  destruct (leb_not_nan _ _ B) as (NL & NR).
  set (raw := translationX + startX st) in *.
  pose proof (Math_max_two _ _ NL N) as (L1 & _ & _).
  pose proof (Math_max_two_not_nan _ _ NL N) as NM.
  pose proof (Math_min_two _ _ NM NR) as (_ & U & [H|H]).
  - split; [|exact U]. exact (leb_trans _ _ _ L1 H).
  - split; [|exact U]. exact (leb_trans _ _ _ B H).
Qed.

Lemma clampedVal_within_bounds_witness :
  (maxTranslateLeft (mkProps [80] [80; 160] 20 20 10)
     <=? animStatePos (onActive (mkProps [80] [80; 160] 20 20 10) 500
                         (onStart initialState))) = true
  /\ (animStatePos (onActive (mkProps [80] [80; 160] 20 20 10) 500
                      (onStart initialState)) <=? 180) = true.
Proof.
  exact (clampedVal_within_bounds (mkProps [80] [80; 160] 20 20 10) 500
           (onStart initialState) eq_refl eq_refl).
Defined.

(** X2. The completion of a release animation ignores the [finished] flag:
    a drag update that interrupts the animation makes it record and report
    the direction and snap distance of a target the row never reached. *)
Theorem interrupted_release_reports
    (p : Props) (translationX target c : float) (st : State) :
  running st = Some (mkAnimation target (OnComplete c)) ->
  changes (onActive p translationX st)
    = changes st ++ [(directionOf c, JS.Math_abs c)]
  /\ openDirection (onActive p translationX st) = directionOf c
  /\ running (onActive p translationX st) = None.
Proof.
  intros R. unfold onActive, assignValue, interrupt. rewrite R.
  repeat split.
Qed.

Lemma interrupted_release_reports_witness :
  changes (onActive demo (-10)
             (onStart (onEnd demo 0 (setPos 60 initialState))))
  = [(RIGHT, 80)].
Proof.
  exact (proj1 (interrupted_release_reports demo (-10) 80 80
                  (onStart (onEnd demo 0 (setPos 60 initialState))) eq_refl)).
Defined.

(** X3. From a position that is not finite the scan never leaves its seed:
    the resolved target is [Infinity], whatever the snap points are. *)
Theorem closestSnapPoint_of_non_finite (v : float) (snaps : list float) :
  is_finite v = false -> closestSnapPoint v snaps = JS.Infinity.
Proof.
  intros F. unfold closestSnapPoint.
  assert (K : forall cur, closerOf v JS.Infinity cur = JS.Infinity).
  { intros cur. unfold closerOf, JS.Math_abs, JS.Infinity.
    assert (E : (abs (v - cur) <? abs (v - infinity)) = false);
      [|rewrite E; reflexivity].
    rewrite FloatAxioms.ltb_spec, !abs_spec, !sub_spec, Prim2SF_infinity.
    unfold is_finite, is_infinity in F.
    rewrite negb_false_iff, orb_true_iff, is_nan_spec in F.
    rewrite FloatAxioms.eqb_spec, abs_spec, Prim2SF_infinity in F.
    destruct (Prim2SF v) as [s|s| |s m e];
      try (destruct F as [F|F]; discriminate F).
    - destruct s, (Prim2SF cur) as [s'|s'| |s' m' e']; try reflexivity;
        destruct s'; reflexivity.
    - reflexivity. }
  induction snaps as [|cur snaps IH]; simpl; [reflexivity|].
  rewrite K. exact IH.
Qed.

Lemma closestSnapPoint_of_non_finite_witness :
  closestSnapPoint neg_infinity (allSnapPoints (mkProps [80] [] 20 20 10))
  = JS.Infinity.
Proof.
  exact (closestSnapPoint_of_non_finite neg_infinity
           (allSnapPoints (mkProps [80] [] 20 20 10)) eq_refl).
Defined.

(** * The clamp of a drag update *)

Section Clamp.

Implicit Types x y z : float.

Lemma leb_antisym x y :
  (x <=? y) = true -> (y <=? x) = true -> (x =? y) = true.
Proof.
  rewrite !leb_compare, eqb_compare. unfold fcompare.
  intros (c & E & N) (c' & E' & N').
  rewrite SFcompare_antisym, E in E'. simpl in E'. injection E' as <-.
  destruct c; try discriminate. exact E.
Qed.

Lemma eqb_leb x y : (x =? y) = true -> (x <=? y) = true /\ (y <=? x) = true.
Proof.
  rewrite eqb_compare, !leb_compare. unfold fcompare. intros E. split.
  - exists Eq. auto.
  - exists Eq. rewrite SFcompare_antisym, E. auto.
Qed.

Variable p : Props.

(** The two [Math] calls of [onActive], with what each guarantees. *)
Lemma clampedVal_bounds (rawVal : float) :
  is_nan (maxTranslateLeft p) = false ->
  is_nan (maxTranslateRight p) = false ->
  is_nan rawVal = false ->
  let m := JS.Math_max [maxTranslateLeft p; rawVal] in
  let v := clampedVal p rawVal in
  (maxTranslateLeft p <=? m) = true /\ (rawVal <=? m) = true
  /\ ((m <=? maxTranslateLeft p) = true \/ (m <=? rawVal) = true)
  /\ (v <=? m) = true /\ (v <=? maxTranslateRight p) = true
  /\ ((m <=? v) = true \/ (maxTranslateRight p <=? v) = true).
Proof.
  intros NL NR N m v.
  destruct (Math_max_two _ _ NL N) as (A & B & C).
  pose proof (Math_max_two_not_nan _ _ NL N) as NM.
  destruct (Math_min_two _ _ NM NR) as (D & E & F).
  repeat split; assumption.
Qed.

End Clamp.

(** X4. With the travel bounds in order and a raw value that is a number, the
    clamp of a drag update is the identity inside the bounds and saturates
    outside them: the offset equals [translationX + startX] when that lies
    within [maxTranslateLeft, maxTranslateRight], equals [maxTranslateRight]
    when it is at or above it, and [maxTranslateLeft] when it is at or below
    it (equality of numbers, which does not tell the two zeros apart). *)
Theorem clampedVal_identity_or_saturation (p : Props) (rawVal : float) :
  (maxTranslateLeft p <=? maxTranslateRight p) = true ->
  is_nan rawVal = false ->
  ((maxTranslateLeft p <=? rawVal) = true ->
   (rawVal <=? maxTranslateRight p) = true ->
   (clampedVal p rawVal =? rawVal) = true)
  /\ ((maxTranslateRight p <=? rawVal) = true ->
      (clampedVal p rawVal =? maxTranslateRight p) = true)
  /\ ((rawVal <=? maxTranslateLeft p) = true ->
      (clampedVal p rawVal =? maxTranslateLeft p) = true).
Proof.
  intros B N. destruct (leb_not_nan _ _ B) as (NL & NR).
  destruct (clampedVal_bounds p rawVal NL NR N) as (A1 & A2 & A3 & A4 & A5 & A6).
  set (m := JS.Math_max [maxTranslateLeft p; rawVal]) in *.
  set (v := clampedVal p rawVal) in *.
  split; [|split].
  - intros H1 H2.
    assert (M : (m <=? rawVal) = true)
      by (destruct A3 as [H|H]; [exact (leb_trans _ _ _ H H1)|exact H]).
    apply leb_antisym.
    + exact (leb_trans _ _ _ A4 M).
    + destruct A6 as [H|H].
      * exact (leb_trans _ _ _ A2 H).
      * exact (leb_trans _ _ _ H2 H).
  - intros H. apply leb_antisym; [exact A5|].
    destruct A6 as [H'|H']; [|exact H'].
    exact (leb_trans _ _ _ (leb_trans _ _ _ H A2) H').
  - intros H.
    assert (M : (m <=? maxTranslateLeft p) = true)
      by (destruct A3 as [H'|H']; [exact H'|exact (leb_trans _ _ _ H' H)]).
    apply leb_antisym.
    + exact (leb_trans _ _ _ A4 M).
    + destruct A6 as [H'|H'].
      * exact (leb_trans _ _ _ A1 H').
      * exact (leb_trans _ _ _ B H').
Qed.

Lemma clampedVal_identity_or_saturation_witness :
  (clampedVal (mkProps [80] [80; 160] 20 20 10) 37.5 =? 37.5) = true
  /\ (clampedVal (mkProps [80] [80; 160] 20 20 10) 500 =? 180) = true
  /\ (clampedVal (mkProps [80] [80; 160] 20 20 10) (-500) =? -100) = true.
Proof.
  pose proof (clampedVal_identity_or_saturation
                (mkProps [80] [80; 160] 20 20 10) 37.5 eq_refl eq_refl)
    as (In_ & _).
  pose proof (clampedVal_identity_or_saturation
                (mkProps [80] [80; 160] 20 20 10) 500 eq_refl eq_refl)
    as (_ & Up & _).
  pose proof (clampedVal_identity_or_saturation
                (mkProps [80] [80; 160] 20 20 10) (-500) eq_refl eq_refl)
    as (_ & _ & Down).
  split; [exact (In_ eq_refl eq_refl)|].
  split; [exact (Up eq_refl)|exact (Down eq_refl)].
Defined.

(** * Rows with one empty side *)

Section EmptySide.

Implicit Types x y : float.

Lemma infinite_not_finite x (s : bool) :
  Prim2SF x = S754_infinity s -> is_finite x = false.
Proof.
  intros E. unfold is_finite, is_infinity.
  rewrite FloatAxioms.eqb_spec, abs_spec, Prim2SF_infinity, E.
  rewrite orb_true_r. reflexivity.
Qed.

Lemma nan_not_finite x : is_nan x = true -> is_finite x = false.
Proof. unfold is_finite. intros ->. reflexivity. Qed.

Lemma leb_neg_infinity x :
  (x <=? neg_infinity) = true -> Prim2SF x = S754_infinity true.
Proof.
  rewrite FloatAxioms.leb_spec.
  change (Prim2SF neg_infinity) with (S754_infinity true). unfold SFleb.
  destruct (Prim2SF x) as [s|s| |s m e]; simpl; try discriminate;
    destruct s; try discriminate; reflexivity.
Qed.

Lemma infinity_leb x :
  (infinity <=? x) = true -> Prim2SF x = S754_infinity false.
Proof.
  rewrite FloatAxioms.leb_spec, Prim2SF_infinity. unfold SFleb.
  destruct (Prim2SF x) as [s|s| |s m e]; simpl; try discriminate;
    destruct s; try discriminate; reflexivity.
Qed.

(** [-Infinity + y] is [-Infinity] or [NaN]. *)
Lemma neg_infinity_add y :
  is_nan (neg_infinity + y) = true \/ neg_infinity + y = neg_infinity.
Proof.
  destruct (is_nan (neg_infinity + y)) eqn:N; [left; reflexivity|right].
  apply not_nan_spec in N. apply Prim2SF_inj. revert N.
  rewrite add_spec. change (Prim2SF neg_infinity) with (S754_infinity true).
  destruct (Prim2SF y) as [s|s| |s m e]; simpl; try congruence.
  destruct s; simpl; congruence.
Qed.

(** [Infinity - y] is [Infinity] or [NaN]. *)
Lemma infinity_sub y :
  is_nan (infinity - y) = true \/ infinity - y = infinity.
Proof.
  destruct (is_nan (infinity - y)) eqn:N; [left; reflexivity|right].
  apply not_nan_spec in N. apply Prim2SF_inj. revert N.
  rewrite sub_spec, Prim2SF_infinity.
  destruct (Prim2SF y) as [s|s| |s m e]; simpl; try congruence.
  destruct s; simpl; congruence.
Qed.

Lemma Math_min_nan_left x y : is_nan x = true -> JS.Math_min [x; y] = nan.
Proof. intros H. unfold JS.Math_min. simpl. rewrite H. reflexivity. Qed.

Lemma Math_min_nan_right x y : is_nan y = true -> JS.Math_min [x; y] = nan.
Proof.
  intros H. unfold JS.Math_min. simpl. rewrite H.
  destruct (is_nan x); [reflexivity|].
  destruct (_ && _); [reflexivity|]. destruct (x <? infinity); reflexivity.
Qed.

Lemma Math_max_nan_left x y : is_nan x = true -> JS.Math_max [x; y] = nan.
Proof. intros H. unfold JS.Math_max. simpl. rewrite H. reflexivity. Qed.

Lemma Math_max_nan_right x y : is_nan y = true -> JS.Math_max [x; y] = nan.
Proof.
  intros H. unfold JS.Math_max. simpl. rewrite H.
  destruct (is_nan x); [reflexivity|].
  destruct (_ && _); [reflexivity|]. destruct (neg_infinity <? x); reflexivity.
Qed.

End EmptySide.

(** X5. A row without right snap points: every drag update writes a value
    that is not finite ([-Infinity] or [NaN]) into the offset, whatever the
    translation, the start offset, the left snap points and [overSwipe]. *)
Theorem no_right_snap_points_offset_not_finite
    (p : Props) (translationX : float) (st : State) :
  snapPointsRight p = [] ->
  is_finite (animStatePos (onActive p translationX st)) = false.
Proof.
  intros R. unfold onActive, assignValue. simpl. unfold clampedVal.
  set (m := JS.Math_max _).
  assert (E : maxTranslateRight p = neg_infinity + overSwipe p)
    by (unfold maxTranslateRight, maxSnapPointRight; rewrite R; reflexivity).
  rewrite E.
  destruct (neg_infinity_add (overSwipe p)) as [N| ->].
  - rewrite Math_min_nan_right by exact N. reflexivity.
  - destruct (is_nan m) eqn:Nm.
    + rewrite Math_min_nan_left by exact Nm. reflexivity.
    + destruct (Math_min_two m neg_infinity Nm eq_refl) as (_ & H & _).
      apply (infinite_not_finite _ true), leb_neg_infinity, H.
Qed.

Lemma no_right_snap_points_offset_not_finite_witness :
  is_finite (animStatePos (onActive (mkProps [80; 40] [] 20 20 10) (-25)
                             (onStart initialState))) = false.
Proof.
  exact (no_right_snap_points_offset_not_finite
           (mkProps [80; 40] [] 20 20 10) (-25) (onStart initialState) eq_refl).
Defined.

(** X6. A row without left snap points: every drag update puts the offset at
    [maxTranslateRight], wherever the finger is, unless a [NaN] is involved,
    in which case the offset is [NaN]. *)
Theorem no_left_snap_points_offset_pinned
    (p : Props) (translationX : float) (st : State) :
  snapPointsLeft p = [] ->
  let pos := animStatePos (onActive p translationX st) in
  is_nan pos = true \/ (pos =? maxTranslateRight p) = true.
Proof.
  intros L pos. subst pos. unfold onActive, assignValue. simpl.
  unfold clampedVal. set (raw := translationX + startX st).
  assert (E : maxTranslateLeft p = infinity - overSwipe p)
    by (unfold maxTranslateLeft, maxSnapPointLeft; rewrite L; reflexivity).
  rewrite E.
  destruct (infinity_sub (overSwipe p)) as [N| ->].
  - left. rewrite Math_max_nan_left by exact N. reflexivity.
  - destruct (is_nan raw) eqn:Nr.
    { left. rewrite Math_max_nan_right by exact Nr. reflexivity. }
    destruct (is_nan (maxTranslateRight p)) eqn:NR.
    { left. rewrite Math_min_nan_right by exact NR. reflexivity. }
    right.
    destruct (Math_max_two infinity raw eq_refl Nr) as (A & _ & _).
    pose proof (Math_max_two_not_nan infinity raw eq_refl Nr) as Nm.
    set (m := JS.Math_max [infinity; raw]) in *.
    destruct (Math_min_two m _ Nm NR) as (B & C & [D|D]).
    + apply leb_antisym; [exact C|].
      apply (leb_trans _ m); [|exact D].
      apply (leb_trans _ infinity); [apply leb_infinity; exact NR|exact A].
    + apply leb_antisym; assumption.
Qed.

Lemma no_left_snap_points_offset_pinned_witness :
  (animStatePos (onActive demo 35 (onStart initialState)) =? 180) = true.
Proof.
  destruct (no_left_snap_points_offset_pinned demo 35 (onStart initialState)
              eq_refl) as [N|E].
  - discriminate N.
  - exact E.
Defined.

(** * Drags *)

Lemma startX_dragActive (p : Props) (samples : list float) (st : State) :
  startX (dragActive p samples st) = startX st.
Proof.
  revert st. induction samples as [|t samples IH]; intros st; simpl.
  - reflexivity.
  - unfold dragActive in *. simpl. rewrite IH.
    unfold onActive, assignValue. simpl. apply startX_interrupt.
Qed.

(** X7. A drag keeps no history: after [onStart] and any sequence of updates
    the offset is the clamp of the last translation plus the offset the
    gesture started from; earlier samples leave no trace in it. *)
Theorem drag_offset_depends_on_last_sample
    (p : Props) (samples : list float) (translationX : float) (st : State) :
  animStatePos (dragActive p (samples ++ [translationX]) (onStart st))
  = clampedVal p (translationX + animStatePos st).
Proof.
  rewrite dragActive_snoc. unfold onActive, assignValue. simpl.
  rewrite startX_dragActive. reflexivity.
Qed.

(** * What the imperative handle leaves untouched *)

Section Programmatic.

Variable p : Props.

Lemma programmatic_step (e : Event) (st : State) :
  programmatic e = true -> noReleaseInFlight st = true ->
  noReleaseInFlight (step p st e) = true
  /\ openDirection (step p st e) = openDirection st
  /\ changes (step p st e) = changes st
  /\ isGestureActive (step p st e) = isGestureActive st.
Proof.
  intros P N. unfold noReleaseInFlight in N.
  destruct e as [c| | | |]; try discriminate; simpl.
  - destruct (call_animateTo p c st) as (target & ->).
    unfold animateTo, assignAnimation, interrupt, noReleaseInFlight. simpl.
    destruct (running st) as [[tv [i|c']]|]; try discriminate; repeat split.
  - unfold settle, noReleaseInFlight.
    destruct (running st) as [[tv [i|c']]|] eqn:E; try discriminate;
      simpl; rewrite ?E; repeat split.
Qed.

Lemma programmatic_run (trace : list Event) : forall st,
  forallb programmatic trace = true -> noReleaseInFlight st = true ->
  openDirection (run p trace st) = openDirection st
  /\ changes (run p trace st) = changes st
  /\ isGestureActive (run p trace st) = isGestureActive st.
Proof.
  induction trace as [|e trace IH]; intros st F N; simpl; [auto|].
  simpl in F. apply andb_true_iff in F. destruct F as (Pe & F).
  destruct (programmatic_step e st Pe N) as (N' & D & C & G).
  destruct (IH _ F N') as (D' & C' & G'). rewrite D', C', G'. auto.
Qed.

End Programmatic.

(** X8. Calls of the imperative handle and the settles of their springs
    never touch the React state or the host: along any sequence of [open],
    [close] and settles, started while no release animation is in flight,
    [openDirection] keeps its value, [onChange] is not called, the
    [pointerEvents] of both underlays stay what they were, and
    [isGestureActive] is not changed. *)
Theorem programmatic_moves_are_not_recorded
    (p : Props) (trace : list Event) (st : State) :
  forallb programmatic trace = true ->
  noReleaseInFlight st = true ->
  openDirection (run p trace st) = openDirection st
  /\ changes (run p trace st) = changes st
  /\ pointerEventsLeft (run p trace st) = pointerEventsLeft st
  /\ pointerEventsRight (run p trace st) = pointerEventsRight st
  /\ isGestureActive (run p trace st) = isGestureActive st.
Proof.
  intros F N. destruct (programmatic_run p trace st F N) as (D & C & G).
  unfold pointerEventsLeft, pointerEventsRight. rewrite D, C, G. auto.
Qed.

Lemma programmatic_moves_are_not_recorded_witness :
  let st := run demo [Imperative (CallOpen RIGHT None); Settle;
                      Imperative CallClose;
                      Imperative (CallOpen RIGHT (Some 80)); Settle]
                initialState in
  openDirection st = NONE /\ changes st = []
  /\ pointerEventsRight st = PointerNone.
Proof.
  destruct (programmatic_moves_are_not_recorded demo
              [Imperative (CallOpen RIGHT None); Settle;
               Imperative CallClose;
               Imperative (CallOpen RIGHT (Some 80)); Settle]
              initialState eq_refl eq_refl) as (D & C & _ & R & _).
  split; [exact D|]. split; [exact C|exact R].
Defined.

(** * The change notifier *)

Section Notifier.

Lemma abs_not_negative (c : float) : (abs c <? 0) = false.
Proof.
  rewrite ltb_zero_sign, abs_spec.
  destruct (Prim2SF c) as [s|s| |s m e]; reflexivity.
Qed.

Lemma abs_eqb_zero (c : float) : (abs c =? 0) = (c =? 0).
Proof.
  rewrite !FloatAxioms.eqb_spec, abs_spec, Prim2SF_zero. unfold SFeqb.
  destruct (Prim2SF c) as [s|s| |s m e]; try reflexivity;
    destruct s; reflexivity.
Qed.

Lemma directionOf_NONE (c : float) :
  directionOf c = NONE <-> (c =? 0) = true.
Proof.
  unfold directionOf, JS.strictEq.
  destruct (c =? 0); [split; reflexivity|].
  destruct (0 <? c); split; discriminate.
Qed.

Lemma wellFormedReport_onComplete (c : float) :
  wellFormedReport (directionOf c, JS.Math_abs c).
Proof.
  unfold wellFormedReport, JS.Math_abs. simpl.
  split; [apply abs_not_negative|].
  rewrite abs_eqb_zero. apply directionOf_NONE.
Qed.

Lemma lastReported_snoc (log : list (OpenDirection * float))
    (d : OpenDirection) (s : float) :
  lastReported (log ++ [(d, s)]) = d.
Proof. unfold lastReported. rewrite rev_unit. reflexivity. Qed.

Lemma inSync_same (st st' : State) :
  openDirection st' = openDirection st -> changes st' = changes st ->
  inSync st -> inSync st'.
Proof. unfold inSync. intros -> ->. auto. Qed.

Lemma inSync_onComplete (c : float) (st : State) :
  inSync st -> inSync (onComplete c st).
Proof.
  intros (_ & W). unfold inSync, onComplete, onAnimationEnd. simpl.
  split; [symmetry; apply lastReported_snoc|].
  intros r H. apply in_app_or in H. destruct H as [H|[<-|[]]]; auto.
  apply wellFormedReport_onComplete.
Qed.

Lemma inSync_invoke (cb : Callback) (b : bool) (st : State) :
  inSync st -> inSync (invoke cb b st).
Proof.
  intros S. destruct cb as [i|c]; simpl.
  - unfold resolvePromiseIfFinished. destruct b; [|exact S].
    apply (inSync_same st); auto.
  - apply inSync_onComplete, S.
Qed.

Lemma inSync_interrupt (st : State) : inSync st -> inSync (interrupt st).
Proof.
  intros S. unfold interrupt. destruct (running st) as [a|]; [|exact S].
  apply inSync_invoke, (inSync_same st); auto.
Qed.

Lemma inSync_settle (st : State) : inSync st -> inSync (settle st).
Proof.
  intros S. unfold settle. destruct (running st) as [a|]; [|exact S].
  apply inSync_invoke, (inSync_same st); auto.
Qed.

Variable p : Props.

Lemma inSync_step (e : Event) (st : State) :
  inSync st -> inSync (step p st e).
Proof.
  intros S. destruct e as [c| |t|v|]; simpl.
  - destruct (call_animateTo p c st) as (target & ->).
    unfold animateTo, assignAnimation. simpl.
    apply (inSync_same (interrupt (setPromises (promises st ++ [mkPromise Pending 0]) st)));
      auto.
    apply inSync_interrupt, (inSync_same st); auto.
  - apply (inSync_same st); auto.
  - unfold onActive, assignValue.
    apply (inSync_same (interrupt st)); auto using inSync_interrupt.
  - unfold onEnd. destruct (JS.strictEq _ _).
    + apply inSync_onComplete, (inSync_same st); auto.
    + unfold assignAnimation.
      apply (inSync_same (interrupt (setGestureActive false st))); auto.
      apply inSync_interrupt, (inSync_same st); auto.
  - apply inSync_settle, S.
Qed.

Lemma inSync_run (trace : list Event) : forall st,
  inSync st -> inSync (run p trace st).
Proof.
  induction trace as [|e trace IH]; intros st S; simpl; auto.
  apply IH, inSync_step, S.
Qed.

End Notifier.

(** X9. Whatever calls, gesture events and settles a row goes through, its
    [openDirection] is the direction of the latest [onChange] call ([NONE]
    before the first), and every [onChange] payload has a snap distance that
    is not negative and is [0] exactly when the direction is [NONE]. *)
Theorem onChange_log_in_sync (p : Props) (trace : list Event) :
  let st := run p trace initialState in
  openDirection st = lastReported (changes st)
  /\ forall d s, In (d, s) (changes st) ->
       (s <? 0) = false /\ (d = NONE <-> (s =? 0) = true).
Proof.
  intros st.
  assert (S : inSync st).
  { apply inSync_run. split; [reflexivity|]. intros r []. }
  destruct S as (D & W). split; [exact D|].
  intros d s H. exact (W (d, s) H).
Qed.

(** * Promises and gestures *)

(** X10. A drag update that arrives while the spring of an imperative call is
    in flight interrupts it for good: the promise that call returned is never
    resolved or rejected, whatever happens to the row afterwards. *)
Theorem drag_leaves_promise_pending
    (p : Props) (trace : list Event) (c : Call) (translationX : float)
    (later : list Event) :
  let st := run p trace initialState in
  let i := fst (call p c st) in
  let st1 := snd (call p c st) in
  awaits st1 i = true
  /\ promiseAt i (run p later (onActive p translationX st1))
     = mkPromise Pending 0.
Proof.
  intros st i st1. subst i st1.
  destruct (call_animateTo p c st) as (target & ->).
  split.
  - unfold awaits, animateTo, assignAnimation. simpl. apply Nat.eqb_refl.
  - apply orphaned_run.
    apply (orphaned_same (interrupt (snd (animateTo target st)))).
    + reflexivity.
    + apply awaits_idle. reflexivity.
    + unfold orphaned, promiseAt.
      rewrite promises_interrupt. unfold animateTo, assignAnimation. simpl.
      rewrite promises_interrupt. simpl.
      rewrite length_app, nth_app_new. simpl.
      split; [lia|]. split; [reflexivity|].
      apply awaits_idle. reflexivity.
Qed.

(** * Hooks *)

(** X11. [useSwipeableItemParams().open(snapPoint, direction)]: a direction
    that is passed wins over the underlay the hook is called from; [LEFT]
    runs [openLeft] and every other direction, [NONE] included, runs
    [openRight] (the hook never closes, unlike the imperative handle); with no
    direction the call opens the side of the enclosing underlay, and the
    right side when called from the overlay, even in a row whose only snap
    points are on the left, where the overlay context's own [open] is
    [openLeft]. *)
Theorem hook_open_resolution
    (p : Props) (st : State) (slot : Slot) (snapPoint : option float) :
  slot <> OutsideRow ->
  exists h,
    useSwipeableItemParams (overlayContextAt p st slot) (underlayContextAt p slot)
      = Returned h
    /\ si_open h snapPoint (Some LEFT) = openLeft p snapPoint
    /\ si_open h snapPoint (Some RIGHT) = openRight p snapPoint
    /\ si_open h snapPoint (Some NONE) = openRight p snapPoint
    /\ (slot = UnderlayLeftSlot -> si_open h snapPoint None = openLeft p snapPoint)
    /\ (slot = UnderlayRightSlot -> si_open h snapPoint None = openRight p snapPoint)
    /\ (slot = OverlaySlot ->
        si_open h snapPoint None = openRight p snapPoint
        /\ (snapPointsLeft p <> [] -> snapPointsRight p = [] ->
            ov_open (si_overlay h) = openLeft p))
    /\ (forall direction s, exists side,
          running (snd (si_open h snapPoint direction s))
          = Some (mkAnimation (JS.nullish snapPoint side)
                    (ResolvePromiseIfFinished (length (promises s))))
          /\ (side = maxSnapPointLeft p \/ side = maxSnapPointRight p)).
Proof.
  intros H.
  destruct slot; try congruence; simpl;
    (eexists; split; [reflexivity|]); simpl;
    repeat (split; [first [reflexivity | discriminate | intros; reflexivity]|]).
  1, 2: intros [[| |]|] s; eexists; split; try reflexivity; auto.
  all: try (split; [intros _; split; [reflexivity|]|]).
  all: try (intros L R; unfold hasLeft, hasRight; rewrite R;
            destruct (snapPointsLeft p); [congruence|reflexivity]).
  all: intros [[| |]|] s; eexists; split; try reflexivity; auto.
Qed.

Lemma hook_open_resolution_witness :
  exists h,
    useSwipeableItemParams (overlayContextAt demo initialState OverlaySlot)
      (underlayContextAt demo OverlaySlot) = Returned h
    /\ si_open h None (Some NONE) = openRight demo None.
Proof.
  destruct (hook_open_resolution demo initialState OverlaySlot None)
    as (h & E & _ & _ & N & _); [discriminate|].
  exists h. split; assumption.
Defined.

(** X12. Where the hooks throw: outside a row all three throw, and
    [useSwipeableItemParams] throws the error of [useOverlayParams]; in the
    overlay, [useUnderlayParams] throws and the other two return; in an
    underlay all three return, [useUnderlayParams] with the direction of that
    underlay.  A missing underlay never makes [useSwipeableItemParams]
    throw. *)
Theorem hooks_throw_outside_their_provider (p : Props) (st : State) (slot : Slot) :
  let underlay := useUnderlayParams (underlayContextAt p slot) in
  let overlay := useOverlayParams (overlayContextAt p st slot) in
  let item := useSwipeableItemParams (overlayContextAt p st slot)
                (underlayContextAt p slot) in
  (slot = OutsideRow ->
     (exists m, underlay = Thrown m) /\ (exists m, overlay = Thrown m /\ item = Thrown m))
  /\ (slot = OverlaySlot ->
     (exists m, underlay = Thrown m)
     /\ overlay = Returned (overlayParams p (openDirection st))
     /\ exists h, item = Returned h /\ si_overlay h = overlayParams p (openDirection st))
  /\ (slot = UnderlayLeftSlot ->
     (exists u, underlay = Returned u /\ un_direction u = LEFT
                /\ un_open u = openLeft p)
     /\ overlay = Returned (overlayParams p (openDirection st))
     /\ exists h, item = Returned h)
  /\ (slot = UnderlayRightSlot ->
     (exists u, underlay = Returned u /\ un_direction u = RIGHT
                /\ un_open u = openRight p)
     /\ overlay = Returned (overlayParams p (openDirection st))
     /\ exists h, item = Returned h)
  /\ (forall oc uc, exists h, useSwipeableItemParams (Some oc) uc = Returned h).
Proof.
  simpl. repeat split; intros; subst; simpl; eauto.
Qed.

Lemma hooks_throw_outside_their_provider_witness :
  exists m, useOverlayParams (overlayContextAt demo initialState OutsideRow)
            = Thrown m
            /\ useSwipeableItemParams
                 (overlayContextAt demo initialState OutsideRow)
                 (underlayContextAt demo OutsideRow) = Thrown m.
Proof.
  destruct (hooks_throw_outside_their_provider demo initialState OutsideRow)
    as (Out & _).
  exact (proj2 (Out eq_refl)).
Defined.

(** X13. [useSwipeableItemParams().percentOpen] is the percentage of the
    enclosing underlay's side; called from the overlay it is
    [percentOpenLeft] while [openDirection] is [LEFT] and [percentOpenRight]
    otherwise.  So from the overlay it reads [0] whenever the row is displaced
    to the side that [openDirection] does not select: in particular all
    through a first swipe to the left, since [openDirection] is [NONE] until
    a release settles. *)
Theorem hook_percentOpen_selection (p : Props) (st : State) (slot : Slot) :
  slot <> OutsideRow ->
  exists h,
    useSwipeableItemParams (overlayContextAt p st slot) (underlayContextAt p slot)
      = Returned h
    /\ (slot = UnderlayLeftSlot ->
        si_percentOpen h st = percentOpenLeft p (animStatePos st))
    /\ (slot = UnderlayRightSlot ->
        si_percentOpen h st = percentOpenRight p (animStatePos st))
    /\ (slot = OverlaySlot -> openDirection st = LEFT ->
        si_percentOpen h st = percentOpenLeft p (animStatePos st)
        /\ ((animStatePos st <? 0) = false -> si_percentOpen h st = 0))
    /\ (slot = OverlaySlot -> openDirection st <> LEFT ->
        si_percentOpen h st = percentOpenRight p (animStatePos st)
        /\ ((0 <? animStatePos st) = false -> si_percentOpen h st = 0)).
Proof.
  intros H.
  destruct slot; try congruence; simpl;
    (eexists; split; [reflexivity|]); simpl;
    repeat split; try discriminate; try reflexivity.
  all: match goal with
       | D : openDirection _ = LEFT |- _ => rewrite D; simpl
       | D : openDirection ?s <> LEFT |- _ =>
           assert (E : isDirection (openDirection s) LEFT = false)
             by (destruct (openDirection s); try reflexivity; congruence);
           rewrite E
       end; try reflexivity.
  - unfold percentOpenLeft, swipingLeft. intros ->. reflexivity.
  - unfold percentOpenRight, swipingRight. intros ->. reflexivity.
Qed.

Lemma hook_percentOpen_selection_witness :
  exists h,
    useSwipeableItemParams
      (overlayContextAt (mkProps [80] [80; 160] 20 20 10)
         (setPos (-60) initialState) OverlaySlot)
      (underlayContextAt (mkProps [80] [80; 160] 20 20 10) OverlaySlot)
      = Returned h
    /\ si_percentOpen h (setPos (-60) initialState) = 0
    /\ percentOpenLeft (mkProps [80] [80; 160] 20 20 10) (-60) = 0.75.
Proof.
  destruct (hook_percentOpen_selection (mkProps [80] [80; 160] 20 20 10)
              (setPos (-60) initialState) OverlaySlot)
    as (h & E & _ & _ & _ & N); [discriminate|].
  exists h. split; [exact E|]. split; [|reflexivity].
  apply (N eq_refl); [discriminate|reflexivity].
Defined.

(** * Underlay styles *)

(** X14. The opacity the row gives its two underlays: at no offset are both
    painted; the left underlay is painted only while the offset is negative
    and the right one only while it is positive, so neither is painted at
    offset [0] or when the offset is [NaN]. *)
Theorem underlays_never_both_painted (p : Props) (pos : float) :
  (leftStyle p pos = 0 \/ rightStyle p pos = 0)
  /\ ((pos <? 0) = false -> leftStyle p pos = 0)
  /\ ((0 <? pos) = false -> rightStyle p pos = 0)
  /\ (leftStyle p pos = 0 \/ leftStyle p pos = 1)
  /\ (rightStyle p pos = 0 \/ rightStyle p pos = 1).
Proof.
  assert (L : (pos <? 0) = false -> leftStyle p pos = 0).
  { unfold leftStyle, percentOpenLeft, swipingLeft. intros ->. reflexivity. }
  assert (R : (0 <? pos) = false -> rightStyle p pos = 0).
  { unfold rightStyle, percentOpenRight, swipingRight. intros ->. reflexivity. }
  split; [|split; [exact L|split; [exact R|split]]].
  - destruct (pos <? 0) eqn:E.
    + right. apply R, ltb_asym, E.
    + left. apply L. reflexivity.
  - unfold leftStyle. destruct (0 <? percentOpenLeft p pos); [right|left]; reflexivity.
  - unfold rightStyle. destruct (0 <? percentOpenRight p pos); [right|left]; reflexivity.
Qed.

Lemma underlays_never_both_painted_witness :
  leftStyle demo 0 = 0 /\ rightStyle demo 0 = 0
  /\ rightStyle demo 40 = 1 /\ leftStyle demo 40 = 0.
Proof.
  pose proof (underlays_never_both_painted demo 0) as (_ & L0 & R0 & _).
  pose proof (underlays_never_both_painted demo 40) as (_ & L40 & _).
  split; [exact (L0 eq_refl)|]. split; [exact (R0 eq_refl)|].
  split; [reflexivity|exact (L40 eq_refl)].
Defined.

(** * Which side a release can report *)

Section ReleaseSide.

Implicit Types x c q : float.

Lemma zero_ltb_positive x : (0 <? x) = positiveOf (Prim2SF x).
Proof.
  rewrite FloatAxioms.ltb_spec, Prim2SF_zero. unfold SFltb.
  destruct (Prim2SF x) as [s|s| |s m e]; simpl; try reflexivity;
    destruct s; reflexivity.
Qed.

Lemma binary_round_aux_not_positive (m e : Z) (l : location) :
  positiveOf (binary_round_aux prec emax true m e l) = false.
Proof.
  unfold binary_round_aux.
  destruct (shr_fexp _ _ _ _ _) as (r1, e1).
  destruct (shr_fexp _ _ _ _ _) as (r2, e2).
  destruct (shr_m r2); try reflexivity.
  destruct (_ <=? _)%Z; reflexivity.
Qed.

Lemma SFmul_negative_not_positive (f : spec_float) (m : positive) (e : Z) :
  signOf f = false ->
  positiveOf (SF64mul f (S754_finite true m e)) = false.
Proof.
  unfold SF64mul, SFmul. destruct f as [s|s| |s mf ef]; cbn [signOf].
  - destruct s; reflexivity.
  - intros ->. reflexivity.
  - reflexivity.
  - intros ->. cbn [xorb]. apply binary_round_aux_not_positive.
Qed.

(** The negation [q * -1] of a snap point that is not negative is not
    positive. *)
Lemma negated_snap_not_positive q :
  (0 <=? q) = true -> (0 <? q * -1) = false.
Proof.
  intros H. destruct (zero_leb_sign q H) as (S & _).
  rewrite zero_ltb_positive, mul_spec.
  assert (E : exists m e, Prim2SF (-1) = S754_finite true m e)
    by (do 2 eexists; reflexivity).
  destruct E as (m & e & ->).
  apply SFmul_negative_not_positive, S.
Qed.

Lemma leb_zero_not_LEFT c : (0 <=? c) = true -> directionOf c <> LEFT.
Proof.
  intros H. unfold directionOf, JS.strictEq.
  destruct (c =? 0) eqn:E; [discriminate|].
  destruct (0 <? c) eqn:P; [discriminate|].
  exfalso. destruct (leb_not_nan _ _ H) as (_ & N).
  apply (not_ltb_leb 0 c eq_refl N) in P.
  rewrite (leb_antisym _ _ P H) in E. discriminate.
Qed.

Lemma not_positive_not_RIGHT c : (0 <? c) = false -> directionOf c <> RIGHT.
Proof.
  intros H. unfold directionOf, JS.strictEq. rewrite H.
  destruct (c =? 0); discriminate.
Qed.

End ReleaseSide.



(** * Where [open] without a snap point goes *)

Section LargestSnapPoint.

Lemma positive_not_nan (s : float) : (0 <? s) = true -> is_nan s = false.
Proof. intros H. apply (ltb_not_nan _ _ H). Qed.

Lemma positive_not_PosZero (s : float) : (0 <? s) = true -> JS.isPosZero s = false.
Proof.
  intros H. destruct (JS.isPosZero s) eqn:E; [|reflexivity].
  apply isPosZero_eq in E. subst. discriminate H.
Qed.

(** The scan of [Math.max] over positive numbers returns its seed or an
    element, and bounds both from above. *)
Lemma maxFrom_positive (l : list float) : forall h,
  positiveSnaps l -> is_nan h = false ->
  (JS.maxFrom h l = h \/ In (JS.maxFrom h l) l)
  /\ (h <=? JS.maxFrom h l) = true
  /\ (forall s, In s l -> (s <=? JS.maxFrom h l) = true).
Proof.
  induction l as [|n l IH]; intros h P N; simpl.
  - split; [left; reflexivity|]. split; [apply leb_refl, N|intros s []].
  - assert (Pn : (0 <? n) = true) by (apply P; left; reflexivity).
    assert (Pl : positiveSnaps l) by (intros s H; apply P; right; exact H).
    rewrite (positive_not_nan n Pn), (positive_not_PosZero n Pn). simpl.
    destruct (h <? n) eqn:E.
    + destruct (IH n Pl (positive_not_nan n Pn)) as (A & B & C).
      split; [right; destruct A as [->|A]; auto|]. split.
      * apply (leb_trans _ n); [apply ltb_leb, E|exact B].
      * intros s [<-|H]; auto.
    + destruct (IH h Pl N) as (A & B & C).
      split; [destruct A as [A|A]; auto|]. split; [exact B|].
      intros s [<-|H]; auto.
      apply (leb_trans _ h); [|exact B].
      apply not_ltb_leb; auto using positive_not_nan.
Qed.

Lemma Math_max_positive (l : list float) :
  l <> [] -> positiveSnaps l ->
  In (JS.Math_max l) l
  /\ (0 <? JS.Math_max l) = true
  /\ (forall s, In s l -> (s <=? JS.Math_max l) = true).
Proof.
  intros NE P. destruct l as [|n l]; [congruence|].
  assert (Pn : (0 <? n) = true) by (apply P; left; reflexivity).
  destruct (maxFrom_positive (n :: l) neg_infinity P eq_refl) as (A & B & C).
  fold (JS.Math_max (n :: l)) in *.
  assert (Q : (0 <? JS.Math_max (n :: l)) = true)
    by (apply (ltb_leb_trans _ n); [exact Pn|apply C; left; reflexivity]).
  split; [|split; [exact Q|exact C]].
  destruct A as [A|A]; [|exact A].
  rewrite A in Q. discriminate Q.
Qed.

Lemma or_zero_positive (x : float) : (0 <? x) = true -> JS.or x 0 = x.
Proof.
  intros H. unfold JS.or, JS.truthy.
  change (is_zero x) with (x =? 0).
  rewrite (positive_not_nan x H), (ltb_zero_not_eqb x H). reflexivity.
Qed.

End LargestSnapPoint.

(** X16. [openRight()] called without a snap point, in a row whose right snap
    points are positive, animates to the largest of them and, when its spring
    settles, leaves the row resting exactly there with the promise fulfilled;
    [openLeft()] likewise goes to [-1] times the largest left snap point. *)
Theorem open_without_snap_point_targets_largest
    (p : Props) (st : State) :
  (snapPointsRight p <> [] -> positiveSnaps (snapPointsRight p) ->
   let st' := settle (snd (openRight p None st)) in
   In (animStatePos st') (snapPointsRight p)
   /\ (forall s, In s (snapPointsRight p) -> (s <=? animStatePos st') = true)
   /\ promiseAt (fst (openRight p None st)) st' = mkPromise Fulfilled 1)
  /\ (snapPointsLeft p <> [] -> positiveSnaps (snapPointsLeft p) ->
      let st' := settle (snd (openLeft p None st)) in
      exists largest,
        animStatePos st' = -1 * largest
        /\ In largest (snapPointsLeft p)
        /\ (forall s, In s (snapPointsLeft p) -> (s <=? largest) = true)
        /\ promiseAt (fst (openLeft p None st)) st' = mkPromise Fulfilled 1).
Proof.
  split.
  - intros NE P st'.
    destruct (Math_max_positive _ NE P) as (A & B & C).
    destruct (animateTo_then_settle (maxSnapPointRight p) st) as (_ & F).
    assert (E : animStatePos st' = JS.Math_max (snapPointsRight p)).
    { subst st'. unfold openRight, animateTo, assignAnimation, settle. simpl.
      unfold maxSnapPointRight. apply or_zero_positive, B. }
    rewrite E. split; [exact A|]. split; [exact C|exact F].
  - intros NE P st'.
    destruct (Math_max_positive _ NE P) as (A & B & C).
    destruct (animateTo_then_settle (maxSnapPointLeft p) st) as (_ & F).
    exists (JS.Math_max (snapPointsLeft p)).
    split; [|split; [exact A|split; [exact C|exact F]]].
    subst st'. unfold openLeft, animateTo, assignAnimation, settle. simpl.
    unfold maxSnapPointLeft. rewrite (or_zero_positive _ B). reflexivity.
Qed.

Lemma open_without_snap_point_targets_largest_witness :
  animStatePos (settle (snd (openRight (mkProps [40; 80] [80; 160; 120] 20 20 10)
                               None initialState))) = 160
  /\ exists largest,
       animStatePos (settle (snd (openLeft (mkProps [40; 80] [80; 160; 120] 20 20 10)
                                    None initialState))) = -1 * largest
       /\ In largest [40; 80].
Proof.
  pose proof (open_without_snap_point_targets_largest
                (mkProps [40; 80] [80; 160; 120] 20 20 10) initialState)
    as (_ & Left).
  split; [reflexivity|].
  destruct Left as (largest & E & I & _).
  - discriminate.
  - intros s [<-|[<-|[]]]; reflexivity.
  - exists largest. split; assumption.
Defined.

(** * Where a release ends *)

Lemma distance_of_nan (v c : float) :
  is_nan c = true -> is_nan (distance v c) = true.
Proof.
  rewrite !is_nan_spec. intros E. unfold distance, JS.Math_abs.
  rewrite abs_spec, sub_spec, E. destruct (Prim2SF v); reflexivity.
Qed.

Lemma not_nan_eqb_refl (c : float) : is_nan c = false -> (c =? c) = true.
Proof. unfold is_nan. destruct (c =? c); [reflexivity|discriminate]. Qed.


